(** * survivreloaded-server: the game loop and loot pickup, in Rocq

    A shallow embedding of [src/game/objects/loot.ts] (class [Loot]) and of
    the [Game] class (constructor callbacks, [tick], [addPlayer],
    [removePlayer]), followed by the properties of the specification.

    Conventions of the embedding

    - JavaScript objects live in a store ([heap]) and are named by
      references; arrays of objects are lists of references, so that an
      object pushed into two arrays is one object.
    - Counts and levels are JavaScript numbers that hold integers; [NaN]
      is kept, because [parseInt] and a missing property produce it.
      Coordinates, distances, speeds and health are rationals: rounding of
      binary64 is not modelled.
    - Methods and tables that live outside the two source files are
      either fields of [Env] (tables, pure helpers, oracles) or are
      recorded in the call log [calls] of the game ([Call]), in order. *)

From Stdlib Require Import ZArith QArith Qabs Lia List String Ascii.
From stdpp Require Import base tactics option list gmap strings pretty.

Local Open Scope string_scope.
Local Open Scope Z_scope.

(** ** JavaScript numbers holding integers *)

Inductive num : Type :=
| Int (z : Z)
| NaN.

Definition num_add (a b : num) : num :=
  match a, b with Int x, Int y => Int (x + y) | _, _ => NaN end.
Definition num_sub (a b : num) : num :=
  match a, b with Int x, Int y => Int (x - y) | _, _ => NaN end.
(** [a <= b], [a < b], [a > b], [a === b], [a !== b]: every comparison
    with [NaN] is false, except [!==]. *)
Definition num_leb (a b : num) : bool :=
  match a, b with Int x, Int y => x <=? y | _, _ => false end.
Definition num_ltb (a b : num) : bool :=
  match a, b with Int x, Int y => x <? y | _, _ => false end.
Definition num_gtb (a b : num) : bool := num_ltb b a.
Definition num_eqb (a b : num) : bool :=
  match a, b with Int x, Int y => x =? y | _, _ => false end.
Definition num_neb (a b : num) : bool := negb (num_eqb a b).

(** Number to string, as in a template literal. *)
Definition num_toString (a : num) : string :=
  match a with Int z => pretty z | NaN => "NaN" end.

(** [array[i]] for a number [i]: [undefined] (here [NaN]) outside the
    array. *)
Definition arrayGet (l : list Z) (i : num) : num :=
  match i with
  | Int z => if z <? 0 then NaN
             else match l !! Z.to_nat z with Some v => Int v | None => NaN end
  | NaN => NaN
  end.

(** ** Strings *)

Definition startsWith (s pre : string) : bool := String.prefix pre s.
Definition endsWith (s suf : string) : bool :=
  String.prefix (String.rev suf) (String.rev s).

(** [s.charAt(s.length - 1)]: the empty string when [s] is empty. *)
Definition lastChar (s : string) : option ascii :=
  match String.rev s with
  | EmptyString => None
  | String c _ => Some c
  end.

(** [parseInt] of a string of at most one character. *)
Definition parseIntChar (c : option ascii) : num :=
  match c with
  | Some a => match Ascii.is_nat a with Some n => Int (Z.of_nat n) | None => NaN end
  | None => NaN
  end.

(** ** Rationals for coordinates and distances *)

Definition Qltb (a b : Q) : bool := negb (Qle_bool b a).
Definition Qneb (a b : Q) : bool := negb (Qeq_bool a b).

Record Vec2 : Type := MkVec2 { vx : Q; vy : Q }.

Definition Vec2_add (a b : Vec2) : Vec2 := MkVec2 (vx a + vx b)%Q (vy a + vy b)%Q.
Definition Vec2_mul (a : Vec2) (k : Q) : Vec2 := MkVec2 (vx a * k)%Q (vy a * k)%Q.

(** [Number.MAX_VALUE], exactly: (2^53 - 1) * 2^971. *)
Definition MAX_VALUE : Q := inject_Z ((2 ^ 53 - 1) * 2 ^ 971).

(** ** References, enumerations, packets *)

Definition Ref : Type := positive.

Inductive ObjectKind : Type := KPlayer | KObstacle | KLoot | KOther.

Global Instance ObjectKind_eq_dec : EqDecision ObjectKind.
Proof. solve_decision. Defined.

Inductive PickupMsgType : Type :=
| Full | AlreadyEquipped | BetterItemEquipped | Success.

Global Instance PickupMsgType_eq_dec : EqDecision PickupMsgType.
Proof. solve_decision. Defined.

Inductive WeaponType : Type := Melee | Gun | Throwable.

Global Instance WeaponType_eq_dec : EqDecision WeaponType.
Proof. solve_decision. Defined.

Inductive CollisionType : Type := Circle | Rectangle.

Record CollisionRecord : Type := MkCollisionRecord { collided : bool; distance : Q }.

(** The sending packets. A packet that is built from a player or from the
    game keeps the reference it was built from. *)
Inductive Packet : Type :=
| PickupPacket (typeString : string) (count : num) (result : PickupMsgType)
| UpdatePacket (p : Ref)
| AliveCountsPacket
| UndefinedPacket                              (* undefined, where a packet is expected *)
| JoinedPacket (p : Ref)
| MapPacket (p : Ref)
| KillPacket (id : Z)
| RoleAnnouncementPacket (p : Ref) (assigned killed : bool).

(** Calls that leave the two source files, in the order they are made. *)
Inductive Call : Type :=
| CSendPacket (p : Ref) (packet : Packet)      (* p.sendPacket(packet) *)
| CSendData (p : Ref) (stream : list Packet)   (* p.sendData(stream) *)
| CDestroyBody (body : Ref)                    (* world.destroyBody(body) *)
| CDamage (target : Ref) (amount : Q) (source : Ref) (* target.damage(amount, source) *)
| CInteract (target p : Ref)                   (* target.interact(p), target not a Loot *)
| CSetVelocity (p : Ref) (x y : Q)             (* p.setVelocity(x, y) *)
| CRecalculateSpeed (p : Ref)
| CSetScope (p : Ref) (typeString : string)
| CSwitchSlot (p : Ref) (slot : Z) (skipSlots : bool)
| CUseItem (p : Ref) (typeString : string) (duration : Q) (action : Z) (skipRecalculate : bool)
| CUpdateVisibleObjects (p : Ref)
| CLog (sum : Z) (ticks : nat).

(** ** Objects *)

(** The part of an object that [GameObject] declares. *)
Record GameObject : Type := MkGameObject {
  id : Z;
  typeString : string;
  typeId : Z;
  layer : Z;
  kind : ObjectKind;
  body : option Ref;          (* the physics body, when there is one *)
  dead : bool;
  damageable : bool;
  interactable : bool
}.

Definition set_kind (v : ObjectKind) (o : GameObject) : GameObject :=
  MkGameObject (id o) (typeString o) (typeId o) (layer o) v (body o) (dead o) (damageable o) (interactable o).
Definition set_body (v : option Ref) (o : GameObject) : GameObject :=
  MkGameObject (id o) (typeString o) (typeId o) (layer o) (kind o) v (dead o) (damageable o) (interactable o).
Definition set_interactable (v : bool) (o : GameObject) : GameObject :=
  MkGameObject (id o) (typeString o) (typeId o) (layer o) (kind o) (body o) (dead o) (damageable o) v.

Record Loot : Type := MkLoot {
  lootObject :> GameObject;
  count : num;
  interactionRad : Z;
  oldPos : Vec2
}.

Definition upd_lootObject (f : GameObject -> GameObject) (l : Loot) : Loot :=
  MkLoot (f (lootObject l)) (count l) (interactionRad l) (oldPos l).
Definition set_count (v : num) (l : Loot) : Loot :=
  MkLoot (lootObject l) v (interactionRad l) (oldPos l).
Definition set_oldPos (v : Vec2) (l : Loot) : Loot :=
  MkLoot (lootObject l) (count l) (interactionRad l) v.

Record Collision : Type := MkCollision {
  collisionType : CollisionType;   (* collision.type *)
  collisionRad : Q;                (* collision.rad, for a circle *)
  collisionMin : Vec2;             (* collision.min and max, for a rectangle *)
  collisionMax : Vec2
}.

Record Obstacle : Type := MkObstacle {
  obstacleObject :> GameObject;
  position : Vec2;
  collision : Collision
}.

(** A bullet is not a [GameObject]: it has no [kind] and no [damageable]. *)
Record Bullet : Type := MkBullet {
  shooter : Ref;
  bulletTypeString : string;
  bulletBody : Ref;
  bulletLayer : Z;
  initialPosition : Vec2;
  bulletDirection : Vec2;
  shotSourceId : Z
}.

(** *** Player *)

(** The three per-object change lists and the two broadcast lists, which
    the game and every player both have. *)
Record Dirty : Type := MkDirty {
  partialDirtyObjects : list Ref;
  fullDirtyObjects : list Ref;
  deletedObjects : list Ref;
  emotes : list Z;
  explosions : list Z
}.

Definition set_partialDirtyObjects (v : list Ref) (d : Dirty) : Dirty :=
  MkDirty v (fullDirtyObjects d) (deletedObjects d) (emotes d) (explosions d).
Definition set_fullDirtyObjects (v : list Ref) (d : Dirty) : Dirty :=
  MkDirty (partialDirtyObjects d) v (deletedObjects d) (emotes d) (explosions d).
Definition set_deletedObjects (v : list Ref) (d : Dirty) : Dirty :=
  MkDirty (partialDirtyObjects d) (fullDirtyObjects d) v (emotes d) (explosions d).
Definition set_emotes (v : list Z) (d : Dirty) : Dirty :=
  MkDirty (partialDirtyObjects d) (fullDirtyObjects d) (deletedObjects d) v (explosions d).
Definition set_explosions (v : list Z) (d : Dirty) : Dirty :=
  MkDirty (partialDirtyObjects d) (fullDirtyObjects d) (deletedObjects d) (emotes d) v.

Record Intent : Type := MkIntent {
  movingUp : bool; movingDown : bool; movingLeft : bool; movingRight : bool;
  touchMoveDir : Vec2;
  moving : bool;
  shootStart : bool;
  shootHold : bool;
  direction : Vec2
}.

Definition set_moving (v : bool) (i : Intent) : Intent :=
  MkIntent (movingUp i) (movingDown i) (movingLeft i) (movingRight i) (touchMoveDir i)
           v (shootStart i) (shootHold i) (direction i).
Definition set_shootStart (v : bool) (i : Intent) : Intent :=
  MkIntent (movingUp i) (movingDown i) (movingLeft i) (movingRight i) (touchMoveDir i)
           (moving i) v (shootHold i) (direction i).
Definition set_direction (v : Vec2) (i : Intent) : Intent :=
  MkIntent (movingUp i) (movingDown i) (movingLeft i) (movingRight i) (touchMoveDir i)
           (moving i) (shootStart i) (shootHold i) v.

Record Vitals : Type := MkVitals {
  speed : Q; diagonalSpeed : Q; scale : Q; boost : Q; health : Q
}.

Definition set_boost (v : Q) (s : Vitals) : Vitals :=
  MkVitals (speed s) (diagonalSpeed s) (scale s) v (health s).
Definition set_health (v : Q) (s : Vitals) : Vitals :=
  MkVitals (speed s) (diagonalSpeed s) (scale s) (boost s) v.

Record Action : Type := MkAction {
  actionDirty : bool;
  actionItemTypeString : string;   (* actionItem.typeString *)
  actionItemTypeId : Z;            (* actionItem.typeId *)
  actionItemUseEnd : Z;            (* actionItem.useEnd *)
  actionType : Z;
  actionSeq : Z;
  usingItem : bool
}.

Record Anim : Type := MkAnim {
  animActive : bool; animType : Z; animSeq : Z; animTime : Z
}.

Record WeaponSlot : Type := MkWeaponSlot {
  slotTypeString : string; slotTypeId : Z; weaponType : WeaponType; cooldown : Z
}.

Definition set_slotType (ts : string) (tid : Z) (w : WeaponSlot) : WeaponSlot :=
  MkWeaponSlot ts tid (weaponType w) (cooldown w).
Definition set_cooldown (v : Z) (w : WeaponSlot) : WeaponSlot :=
  MkWeaponSlot (slotTypeString w) (slotTypeId w) (weaponType w) v.

(** [p.activeWeapon] is one of the slots of [p.weapons]: the slot is named,
    so that a write through [activeWeapon] is a write to that slot. *)
Inductive SlotName : Type := PrimaryGun | SecondaryGun | MeleeSlot.

Record Gear : Type := MkGear {
  inventory : gmap string num;
  scope : string;                  (* scope.typeString *)
  backpackLevel : num; chestLevel : num; helmetLevel : num;
  primaryGun : WeaponSlot; secondaryGun : WeaponSlot; melee : WeaponSlot;
  activeWeapon : SlotName;
  weaponsDirty : bool; inventoryDirty : bool; inventoryEmpty : bool
}.

Definition set_inventory (v : gmap string num) (x : Gear) : Gear :=
  MkGear v (scope x) (backpackLevel x) (chestLevel x) (helmetLevel x)
         (primaryGun x) (secondaryGun x) (melee x) (activeWeapon x)
         (weaponsDirty x) (inventoryDirty x) (inventoryEmpty x).
Definition set_backpackLevel (v : num) (x : Gear) : Gear :=
  MkGear (inventory x) (scope x) v (chestLevel x) (helmetLevel x)
         (primaryGun x) (secondaryGun x) (melee x) (activeWeapon x)
         (weaponsDirty x) (inventoryDirty x) (inventoryEmpty x).
Definition set_chestLevel (v : num) (x : Gear) : Gear :=
  MkGear (inventory x) (scope x) (backpackLevel x) v (helmetLevel x)
         (primaryGun x) (secondaryGun x) (melee x) (activeWeapon x)
         (weaponsDirty x) (inventoryDirty x) (inventoryEmpty x).
Definition set_helmetLevel (v : num) (x : Gear) : Gear :=
  MkGear (inventory x) (scope x) (backpackLevel x) (chestLevel x) v
         (primaryGun x) (secondaryGun x) (melee x) (activeWeapon x)
         (weaponsDirty x) (inventoryDirty x) (inventoryEmpty x).
Definition set_primaryGun (v : WeaponSlot) (x : Gear) : Gear :=
  MkGear (inventory x) (scope x) (backpackLevel x) (chestLevel x) (helmetLevel x)
         v (secondaryGun x) (melee x) (activeWeapon x)
         (weaponsDirty x) (inventoryDirty x) (inventoryEmpty x).
Definition set_secondaryGun (v : WeaponSlot) (x : Gear) : Gear :=
  MkGear (inventory x) (scope x) (backpackLevel x) (chestLevel x) (helmetLevel x)
         (primaryGun x) v (melee x) (activeWeapon x)
         (weaponsDirty x) (inventoryDirty x) (inventoryEmpty x).
Definition set_melee (v : WeaponSlot) (x : Gear) : Gear :=
  MkGear (inventory x) (scope x) (backpackLevel x) (chestLevel x) (helmetLevel x)
         (primaryGun x) (secondaryGun x) v (activeWeapon x)
         (weaponsDirty x) (inventoryDirty x) (inventoryEmpty x).
Definition set_weaponsDirty (v : bool) (x : Gear) : Gear :=
  MkGear (inventory x) (scope x) (backpackLevel x) (chestLevel x) (helmetLevel x)
         (primaryGun x) (secondaryGun x) (melee x) (activeWeapon x)
         v (inventoryDirty x) (inventoryEmpty x).
Definition set_inventoryDirty (v : bool) (x : Gear) : Gear :=
  MkGear (inventory x) (scope x) (backpackLevel x) (chestLevel x) (helmetLevel x)
         (primaryGun x) (secondaryGun x) (melee x) (activeWeapon x)
         (weaponsDirty x) v (inventoryEmpty x).
Definition set_inventoryEmpty (v : bool) (x : Gear) : Gear :=
  MkGear (inventory x) (scope x) (backpackLevel x) (chestLevel x) (helmetLevel x)
         (primaryGun x) (secondaryGun x) (melee x) (activeWeapon x)
         (weaponsDirty x) (inventoryDirty x) v.

Record Conn : Type := MkConn {
  isMobile : bool;
  visibleObjects : list Ref;
  movesSinceLastUpdate : Z;
  role : Z;
  roleLost : bool;
  disconnected : bool;
  deadPos : option Vec2
}.

Definition set_visibleObjects (v : list Ref) (c : Conn) : Conn :=
  MkConn (isMobile c) v (movesSinceLastUpdate c) (role c) (roleLost c) (disconnected c) (deadPos c).
Definition set_role (r : Z) (lost : bool) (c : Conn) : Conn :=
  MkConn (isMobile c) (visibleObjects c) (movesSinceLastUpdate c) r lost (disconnected c) (deadPos c).
Definition set_disconnected (v : bool) (pos : option Vec2) (c : Conn) : Conn :=
  MkConn (isMobile c) (visibleObjects c) (movesSinceLastUpdate c) (role c) (roleLost c) v pos.

Record Player : Type := MkPlayer {
  playerObject :> GameObject;
  intent :> Intent;
  vitals :> Vitals;
  action :> Action;
  anim :> Anim;
  gear :> Gear;
  conn :> Conn;
  playerDirty :> Dirty
}.

Definition upd_intent (f : Intent -> Intent) (p : Player) : Player :=
  MkPlayer (playerObject p) (f (intent p)) (vitals p) (action p) (anim p) (gear p) (conn p) (playerDirty p).
Definition upd_vitals (f : Vitals -> Vitals) (p : Player) : Player :=
  MkPlayer (playerObject p) (intent p) (f (vitals p)) (action p) (anim p) (gear p) (conn p) (playerDirty p).
Definition upd_action (f : Action -> Action) (p : Player) : Player :=
  MkPlayer (playerObject p) (intent p) (vitals p) (f (action p)) (anim p) (gear p) (conn p) (playerDirty p).
Definition upd_anim (f : Anim -> Anim) (p : Player) : Player :=
  MkPlayer (playerObject p) (intent p) (vitals p) (action p) (f (anim p)) (gear p) (conn p) (playerDirty p).
Definition upd_gear (f : Gear -> Gear) (p : Player) : Player :=
  MkPlayer (playerObject p) (intent p) (vitals p) (action p) (anim p) (f (gear p)) (conn p) (playerDirty p).
Definition upd_conn (f : Conn -> Conn) (p : Player) : Player :=
  MkPlayer (playerObject p) (intent p) (vitals p) (action p) (anim p) (gear p) (f (conn p)) (playerDirty p).
Definition upd_playerDirty (f : Dirty -> Dirty) (p : Player) : Player :=
  MkPlayer (playerObject p) (intent p) (vitals p) (action p) (anim p) (gear p) (conn p) (f (playerDirty p)).

(** What a reference can point to. [OBoundary] is the literal
    [{ kind: ObjectKind.Obstacle, layer: 0 }] of [createWorldBoundary]. *)
Inductive Obj : Type :=
| OPlayer (p : Player)
| OObstacle (o : Obstacle)
| OLoot (l : Loot)
| OBullet (b : Bullet)
| OBoundary.

(** ** The physics world, as far as the game reads and writes it *)

Record Body : Type := MkBody {
  bodyPosition : Vec2;
  bodyVelocity : Vec2;
  bodyDestroyed : bool;
  userData : option Ref
}.

Record DamageRecord : Type := MkDamageRecord {
  damaged : Ref;
  damager : Ref;
  bullet : Ref
}.

(** ** The game *)

Record Machine : Type := MkMachine {
  heap : gmap Ref Obj;       (* the objects, by reference *)
  world : gmap Ref Body;     (* the bodies of the Planck world, by reference *)
  calls : list Call;         (* calls made so far, oldest first *)
  clockReads : nat;          (* how many times Date.now() was read *)
  randomReads : nat          (* how many random numbers were drawn *)
}.

Record Registry : Type := MkRegistry {
  objects : list Ref;
  _nextObjectId : Z;
  _nextGroupId : Z;
  loot : list Ref;
  players : list Ref;
  connectedPlayers : list Ref;
  activePlayers : list Ref;
  bullets : list Ref
}.

Record Ephemeral : Type := MkEphemeral {
  newObjects : list Ref;
  newPlayers : list Ref;
  deletedPlayers : list Ref;
  dirtyBullets : list Ref;
  kills : list Packet;
  roleAnnouncements : list Packet;
  damageRecords : list DamageRecord
}.

Record Session : Type := MkSession {
  playerInfosDirty : bool;
  killLeader : Z * Z;
  killLeaderDirty : bool;
  aliveCount : Z;
  aliveCountDirty : bool;
  aliveCounts : option Packet;
  gasDirty : bool;
  gasCircleDirty : bool;
  active : bool;
  tickTimes : list Z
}.

Record Game : Type := MkGame {
  machine :> Machine;
  registry :> Registry;
  gameDirty :> Dirty;
  ephemeral :> Ephemeral;
  session :> Session
}.

Definition upd_machine (f : Machine -> Machine) (g : Game) : Game :=
  MkGame (f (machine g)) (registry g) (gameDirty g) (ephemeral g) (session g).
Definition upd_registry (f : Registry -> Registry) (g : Game) : Game :=
  MkGame (machine g) (f (registry g)) (gameDirty g) (ephemeral g) (session g).
Definition upd_gameDirty (f : Dirty -> Dirty) (g : Game) : Game :=
  MkGame (machine g) (registry g) (f (gameDirty g)) (ephemeral g) (session g).
Definition upd_ephemeral (f : Ephemeral -> Ephemeral) (g : Game) : Game :=
  MkGame (machine g) (registry g) (gameDirty g) (f (ephemeral g)) (session g).
Definition upd_session (f : Session -> Session) (g : Game) : Game :=
  MkGame (machine g) (registry g) (gameDirty g) (ephemeral g) (f (session g)).

Definition set_heap (v : gmap Ref Obj) (m : Machine) : Machine :=
  MkMachine v (world m) (calls m) (clockReads m) (randomReads m).
Definition set_world (v : gmap Ref Body) (m : Machine) : Machine :=
  MkMachine (heap m) v (calls m) (clockReads m) (randomReads m).
Definition set_calls (v : list Call) (m : Machine) : Machine :=
  MkMachine (heap m) (world m) v (clockReads m) (randomReads m).
Definition set_clockReads (v : nat) (m : Machine) : Machine :=
  MkMachine (heap m) (world m) (calls m) v (randomReads m).
Definition set_randomReads (v : nat) (m : Machine) : Machine :=
  MkMachine (heap m) (world m) (calls m) (clockReads m) v.

Definition set_objects (v : list Ref) (r : Registry) : Registry :=
  MkRegistry v (_nextObjectId r) (_nextGroupId r) (loot r) (players r)
             (connectedPlayers r) (activePlayers r) (bullets r).
Definition set_nextObjectId (v : Z) (r : Registry) : Registry :=
  MkRegistry (objects r) v (_nextGroupId r) (loot r) (players r)
             (connectedPlayers r) (activePlayers r) (bullets r).
Definition set_loot (v : list Ref) (r : Registry) : Registry :=
  MkRegistry (objects r) (_nextObjectId r) (_nextGroupId r) v (players r)
             (connectedPlayers r) (activePlayers r) (bullets r).
Definition set_players (v : list Ref) (r : Registry) : Registry :=
  MkRegistry (objects r) (_nextObjectId r) (_nextGroupId r) (loot r) v
             (connectedPlayers r) (activePlayers r) (bullets r).
Definition set_connectedPlayers (v : list Ref) (r : Registry) : Registry :=
  MkRegistry (objects r) (_nextObjectId r) (_nextGroupId r) (loot r) (players r)
             v (activePlayers r) (bullets r).
Definition set_activePlayers (v : list Ref) (r : Registry) : Registry :=
  MkRegistry (objects r) (_nextObjectId r) (_nextGroupId r) (loot r) (players r)
             (connectedPlayers r) v (bullets r).
Definition set_bullets (v : list Ref) (r : Registry) : Registry :=
  MkRegistry (objects r) (_nextObjectId r) (_nextGroupId r) (loot r) (players r)
             (connectedPlayers r) (activePlayers r) v.

Definition set_newPlayers (v : list Ref) (e : Ephemeral) : Ephemeral :=
  MkEphemeral (newObjects e) v (deletedPlayers e) (dirtyBullets e) (kills e)
              (roleAnnouncements e) (damageRecords e).
Definition set_deletedPlayers (v : list Ref) (e : Ephemeral) : Ephemeral :=
  MkEphemeral (newObjects e) (newPlayers e) v (dirtyBullets e) (kills e)
              (roleAnnouncements e) (damageRecords e).
Definition set_dirtyBullets (v : list Ref) (e : Ephemeral) : Ephemeral :=
  MkEphemeral (newObjects e) (newPlayers e) (deletedPlayers e) v (kills e)
              (roleAnnouncements e) (damageRecords e).
Definition set_kills (v : list Packet) (e : Ephemeral) : Ephemeral :=
  MkEphemeral (newObjects e) (newPlayers e) (deletedPlayers e) (dirtyBullets e) v
              (roleAnnouncements e) (damageRecords e).
Definition set_roleAnnouncements (v : list Packet) (e : Ephemeral) : Ephemeral :=
  MkEphemeral (newObjects e) (newPlayers e) (deletedPlayers e) (dirtyBullets e) (kills e)
              v (damageRecords e).
Definition set_damageRecords (v : list DamageRecord) (e : Ephemeral) : Ephemeral :=
  MkEphemeral (newObjects e) (newPlayers e) (deletedPlayers e) (dirtyBullets e) (kills e)
              (roleAnnouncements e) v.

Definition set_aliveCount (n : Z) (dirty : bool) (s : Session) : Session :=
  MkSession (playerInfosDirty s) (killLeader s) (killLeaderDirty s) n dirty
            (aliveCounts s) (gasDirty s) (gasCircleDirty s) (active s) (tickTimes s).
Definition set_playerInfosDirty (v : bool) (s : Session) : Session :=
  MkSession v (killLeader s) (killLeaderDirty s) (aliveCount s) (aliveCountDirty s)
            (aliveCounts s) (gasDirty s) (gasCircleDirty s) (active s) (tickTimes s).
Definition set_aliveCounts (v : option Packet) (s : Session) : Session :=
  MkSession (playerInfosDirty s) (killLeader s) (killLeaderDirty s) (aliveCount s)
            (aliveCountDirty s) v (gasDirty s) (gasCircleDirty s) (active s) (tickTimes s).
Definition set_tickTimes (v : list Z) (s : Session) : Session :=
  MkSession (playerInfosDirty s) (killLeader s) (killLeaderDirty s) (aliveCount s)
            (aliveCountDirty s) (aliveCounts s) (gasDirty s) (gasCircleDirty s) (active s) v.
Definition set_active (v : bool) (s : Session) : Session :=
  MkSession (playerInfosDirty s) (killLeader s) (killLeaderDirty s) (aliveCount s)
            (aliveCountDirty s) (aliveCounts s) (gasDirty s) (gasCircleDirty s) v (tickTimes s).
(** [gasDirty = false; gasCircleDirty = false; aliveCountDirty = false]. *)
Definition clear_sessionFlags (s : Session) : Session :=
  MkSession (playerInfosDirty s) (killLeader s) (killLeaderDirty s) (aliveCount s)
            false (aliveCounts s) false false (active s) (tickTimes s).

(** ** Reading and writing the store *)

Definition zeroVec : Vec2 := MkVec2 0 0.

Global Instance GameObject_inhabited : Inhabited GameObject :=
  populate (MkGameObject 0 "" 0 0 KOther None false false false).
Global Instance Dirty_inhabited : Inhabited Dirty := populate (MkDirty [] [] [] [] []).
Global Instance WeaponSlot_inhabited : Inhabited WeaponSlot := populate (MkWeaponSlot "" 0 Melee 0).
Global Instance Loot_inhabited : Inhabited Loot := populate (MkLoot inhabitant NaN 1 zeroVec).
Global Instance Player_inhabited : Inhabited Player :=
  populate (MkPlayer inhabitant
              (MkIntent false false false false zeroVec false false false zeroVec)
              (MkVitals 0 0 0 0 0)
              (MkAction false "" 0 0 0 0 false)
              (MkAnim false 0 0 0)
              (MkGear ∅ "" NaN NaN NaN inhabitant inhabitant inhabitant MeleeSlot false false false)
              (MkConn false [] 0 0 false false None)
              inhabitant).

(** A reference read at the class the source has it at. The source never
    holds a reference of the wrong class; the model returns a default
    there, and writes through such a reference do nothing. *)
Definition playerAt (h : gmap Ref Obj) (r : Ref) : Player :=
  match h !! r with Some (OPlayer p) => p | _ => inhabitant end.
Definition lootAt (h : gmap Ref Obj) (r : Ref) : Loot :=
  match h !! r with Some (OLoot l) => l | _ => inhabitant end.
Definition isPlayerAt (h : gmap Ref Obj) (r : Ref) : bool :=
  match h !! r with Some (OPlayer _) => true | _ => false end.
Definition isLootAt (h : gmap Ref Obj) (r : Ref) : bool :=
  match h !! r with Some (OLoot _) => true | _ => false end.

Definition getPlayer (g : Game) (r : Ref) : Player := playerAt (heap g) r.
Definition getLoot (g : Game) (r : Ref) : Loot := lootAt (heap g) r.

Definition updPlayer (r : Ref) (f : Player -> Player) (g : Game) : Game :=
  match heap g !! r with
  | Some (OPlayer p) => upd_machine (set_heap (<[r := OPlayer (f p)]> (heap g))) g
  | _ => g
  end.
Definition updLoot (r : Ref) (f : Loot -> Loot) (g : Game) : Game :=
  match heap g !! r with
  | Some (OLoot l) => upd_machine (set_heap (<[r := OLoot (f l)]> (heap g))) g
  | _ => g
  end.

(** One more random number drawn. *)
Definition drawRandom : Game -> Game :=
  upd_machine (fun m => set_randomReads (S (randomReads m)) m).

(** [new]: the next unused reference of the store. *)
Definition alloc (o : Obj) (g : Game) : Ref * Game :=
  let r := fresh (dom (heap g)) in
  (r, upd_machine (set_heap (<[r := o]> (heap g))) g).

Definition call (c : Call) (g : Game) : Game :=
  upd_machine (set_calls (calls g ++ [c])) g.

(** [array.push(x)] on the lists of the game and of a player. *)
Definition pushObjects (x : Ref) : Game -> Game :=
  upd_registry (fun r => set_objects (objects r ++ [x]) r).
Definition pushLoot (x : Ref) : Game -> Game :=
  upd_registry (fun r => set_loot (loot r ++ [x]) r).
Definition pushFull (x : Ref) (d : Dirty) : Dirty :=
  set_fullDirtyObjects (fullDirtyObjects d ++ [x]) d.
Definition pushPartial (x : Ref) (d : Dirty) : Dirty :=
  set_partialDirtyObjects (partialDirtyObjects d ++ [x]) d.
Definition pushDeleted (x : Ref) (d : Dirty) : Dirty :=
  set_deletedObjects (deletedObjects d ++ [x]) d.

(** Modelled from the spec: [removeFrom] of utils is not among the
    sources; an object is removed from a list by taking out its first
    occurrence, and a list that does not hold it is left as it is. *)
Fixpoint removeFrom (l : list Ref) (x : Ref) : list Ref :=
  match l with
  | [] => []
  | y :: l' => if decide (y = x) then l' else y :: removeFrom l' x
  end.

(** The getter [nextObjectId]: increments, then returns. *)
Definition nextObjectId (g : Game) : Z * Game :=
  let n := _nextObjectId g + 1 in
  (n, upd_registry (set_nextObjectId n) g).

(** [world.createBody] followed by [createFixture] with the user data. *)
Definition createBody (pos vel : Vec2) (data : Ref) (g : Game) : Ref * Game :=
  let b := fresh (dom (world g)) in
  (b, upd_machine (set_world (<[b := MkBody pos vel false (Some data)]> (world g))) g).

(** [world.destroyBody(body)]: the call is recorded, and the body is marked. *)
Definition markDestroyed (bd : Body) : Body :=
  MkBody (bodyPosition bd) (bodyVelocity bd) true (userData bd).

Definition destroyBody (b : option Ref) (g : Game) : Game :=
  match b with
  | Some b => call (CDestroyBody b) (upd_machine (set_world (alter markDestroyed b (world g))) g)
  | None => g
  end.

(** [body.getPosition()]. *)
Definition getPosition (g : Game) (b : option Ref) : Vec2 :=
  match b with
  | Some b => match world g !! b with Some bd => bodyPosition bd | None => zeroVec end
  | None => zeroVec
  end.

(** ** What the sources take from elsewhere *)

Record ItemDef : Type := MkItemDef { level : Z }.
Record WeaponDef : Type := MkWeaponDef {
  reloadTime : Q;
  attackRad : Q;          (* attack.rad *)
  attackOffset : Vec2;    (* attack.offset *)
  shotSpread : Q;
  barrelLength : Q;
  bulletType : string;
  fireMode : string
}.
Record BulletDef : Type := MkBulletDef { damage : Q }.

Record Env : Type := MkEnv {
  (* data tables; each is read only at type strings it has *)
  Items : string -> ItemDef;
  Weapons : string -> WeaponDef;
  Bullets : string -> BulletDef;
  TypeToId : string -> Z;
  bagSizes : string -> option (list Z);       (* Constants.bagSizes *)
  touchLootRadMult : Q;                       (* Constants.player.touchLootRadMult *)
  Action_Reload : Z;                          (* Constants.Action.Reload *)
  Action_UseItem : Z;                         (* Constants.Action.UseItem *)
  performanceLog : bool;                      (* Debug.performanceLog *)
  performanceLogInterval : nat;               (* Debug.performanceLogInterval *)
  fixedSpawnLocation : option (Q * Q);        (* Debug.fixedSpawnLocation, its two entries when it is not empty *)
  mapWidth : Q; mapHeight : Q;                (* this.map.width, this.map.height *)
  (* helpers of utils and of Math *)
  distanceBetween : Vec2 -> Vec2 -> Q;
  distanceToCircle : Vec2 -> Q -> Vec2 -> Q -> CollisionRecord;
  distanceToRect : Vec2 -> Vec2 -> Vec2 -> Q -> CollisionRecord;
  unitVecToRadians : Vec2 -> Q;
  vec2Rotate : Vec2 -> Q -> Vec2;
  degreesToRadians : Q -> Q;
  Math_cos : Q -> Q; Math_sin : Q -> Q; Math_PI : Q;
  (* oracles: the n-th reading of the clock, the n-th random draws *)
  Date_now : nat -> Z;
  Math_random : nat -> Q;
  randomFloat : nat -> Q -> Q -> Q;
  randomVec : nat -> Q -> Q -> Q -> Q -> Vec2;
  (* methods of Player that only read *)
  weaponCooldownOver : Game -> Ref -> bool;
  playerPosition : Game -> Ref -> Vec2;       (* the getter p.position *)
  (* what p.updateVisibleObjects() leaves in p.visibleObjects *)
  visibleFrom : Game -> Ref -> list Ref;
  (* the fields a new Player starts with *)
  newPlayer : Z -> Vec2 -> Player
}.

(** ** [class Loot] (src/game/objects/loot.ts) *)

Section Model.

Variable E : Env.

(** Modelled from the spec: the constructor of [GameObject] is not among
    the sources. An object gets the next identifier of the game (the
    identity is "monotonically assigned, unique for the match"), its type
    string with the type id of the table, its layer, and no capability. *)
Definition newGameObject (ts : string) (lay : Z) (g : Game) : GameObject * Game :=
  let '(n, g) := nextObjectId g in
  (MkGameObject n ts (TypeToId E ts) lay KOther None false false false, g).

(** [new Loot(game, typeString, position, layer, count, spreadOut)]. *)
Definition newLoot (ts : string) (pos : Vec2) (lay : Z) (cnt : num) (spreadOut : bool)
    (g : Game) : Ref * Game :=
  let '(o, g) := newGameObject ts lay g in
  let this := fresh (dom (heap g)) in
  let angle := (Math_random E (randomReads g) * Math_PI E * 2)%Q in
  let vel := if spreadOut
             then Vec2_mul (MkVec2 (Math_cos E angle) (Math_sin E angle)) (5 # 100000)
             else zeroVec in
  let g := if spreadOut then drawRandom g else g in
  let '(b, g) := createBody pos vel this g in
  let l := MkLoot (set_interactable true (set_body (Some b) (set_kind KLoot o))) cnt 1 pos in
  let g := upd_machine (set_heap (<[this := OLoot l]> (heap g))) g in
  (this, pushLoot this g).

(** The getter [position] of a loot. *)
Definition lootPosition (g : Game) (this : Ref) : Vec2 :=
  getPosition g (body (getLoot g this)).

(** [p.inventory[key]]; a missing key reads as [undefined], which the
    arithmetic and the comparisons of the sources treat as [NaN]. *)
Definition inventoryGet (key : string) (p : Player) : num :=
  default NaN (inventory p !! key).
Definition inventorySet (key : string) (v : num) (x : Gear) : Gear :=
  set_inventory (<[key := v]> (inventory x)) x.

(** [p[`${type}Level`]], read and written, for the three types the
    sources pass. *)
Definition getLevel (type : string) (p : Player) : num :=
  if decide (type = "backpack") then backpackLevel p
  else if decide (type = "chest") then chestLevel p
  else if decide (type = "helmet") then helmetLevel p
  else NaN.
Definition setLevel (type : string) (v : num) (x : Gear) : Gear :=
  if decide (type = "backpack") then set_backpackLevel v x
  else if decide (type = "chest") then set_chestLevel v x
  else if decide (type = "helmet") then set_helmetLevel v x
  else x.

(** [Loot.pickUpTieredItem(type, p)]. *)
Definition pickUpTieredItem (this : Ref) (type : string) (p : Ref) (g : Game)
    : PickupMsgType * Game :=
  let oldLevel := getLevel type (getPlayer g p) in
  let newLevel := parseIntChar (lastChar (typeString (getLoot g this))) in
  if num_ltb newLevel oldLevel then (BetterItemEquipped, g)
  else if num_eqb newLevel oldLevel then (AlreadyEquipped, g)
  else
    let g := updPlayer p (upd_gear (setLevel type newLevel)) g in
    let g :=
      if num_neb oldLevel (Int 0) then
        let '(oldItem, g) :=
          newLoot (type ++ "0" ++ num_toString oldLevel)
                  (lootPosition g this) (layer (getLoot g this)) (Int 1) false g in
        let g := pushObjects oldItem g in
        upd_gameDirty (pushFull oldItem) g
      else g in
    (Success, g).

(** The type dispatch of [Loot.interact(p)], lines 57 to 106: the values
    of [result], [deleteItem] and [playerDirty] when it ends. *)
Definition interactDispatch (this p : Ref) (g : Game)
    : PickupMsgType * bool * bool * Game :=
  let ts := typeString (getLoot g this) in
  if endsWith ts "scope" then
    if num_gtb (inventoryGet ts (getPlayer g p)) (Int 0) then (AlreadyEquipped, true, false, g)
    else
      let g := updPlayer p (upd_gear (fun x =>
                 inventorySet ts (num_add (inventoryGet ts (getPlayer g p)) (Int 1)) x)) g in
      let g := if level (Items E ts) >? level (Items E (scope (getPlayer g p)))
               then call (CSetScope p ts) g else g in
      (Success, true, false, g)
  else if startsWith ts "backpack" then
    let '(result, g) := pickUpTieredItem this "backpack" p g in (result, true, true, g)
  else if startsWith ts "chest" then
    let '(result, g) := pickUpTieredItem this "chest" p g in (result, true, true, g)
  else if startsWith ts "helmet" then
    let '(result, g) := pickUpTieredItem this "helmet" p g in (result, true, true, g)
  else
    match bagSizes E ts with
    | Some sizes =>
        let currentCount := inventoryGet ts (getPlayer g p) in
        let maxCapacity := arrayGet sizes (backpackLevel (getPlayer g p)) in
        let thisCount := count (getLoot g this) in
        if num_leb (num_add currentCount thisCount) maxCapacity then
          (Success, true, false,
           updPlayer p (upd_gear (inventorySet ts (num_add currentCount thisCount))) g)
        else if num_gtb (num_add currentCount (Int 1)) maxCapacity then
          (Full, true, false, g)
        else if num_gtb (num_add currentCount thisCount) maxCapacity then
          let g := updPlayer p (upd_gear (inventorySet ts maxCapacity)) g in
          let g := updLoot this (set_count (num_sub (num_add currentCount thisCount) maxCapacity)) g in
          let g := upd_gameDirty (pushFull this) g in
          (Success, false, false, g)
        else (Success, true, false, g)
    | None =>
        let tid := typeId (getLoot g this) in
        let '(result, g) :=
          if slotTypeId (primaryGun (getPlayer g p)) =? 0 then
            let g := updPlayer p (upd_gear (fun x => set_primaryGun (set_slotType ts tid (primaryGun x)) x)) g in
            let g := call (CSwitchSlot p 0 true) g in
            (Success, call (CUseItem p ts (reloadTime (Weapons E ts)) (Action_Reload E) true) g)
          else if negb (slotTypeId (primaryGun (getPlayer g p)) =? 0)
                  && (slotTypeId (secondaryGun (getPlayer g p)) =? 0) then
            let g := updPlayer p (upd_gear (fun x => set_secondaryGun (set_slotType ts tid (secondaryGun x)) x)) g in
            let g := call (CSwitchSlot p 1 true) g in
            (Success, call (CUseItem p ts (reloadTime (Weapons E ts)) (Action_Reload E) true) g)
          else (Full, g) in
        (result, true, true, updPlayer p (upd_gear (set_weaponsDirty true)) g)
    end.

(** Lines 108 to 125 of [Loot.interact(p)], from the values the dispatch
    left. *)
Definition interactFinish (this p : Ref) (result : PickupMsgType)
    (deleteItem playerDirty : bool) (g : Game) : Game :=
  let g :=
    if negb (isMobile (getPlayer g p) && bool_decide (result <> Success))
    then call (CSendPacket p
                 (PickupPacket (typeString (getLoot g this)) (count (getLoot g this)) result)) g
    else g in
  if bool_decide (result = Success) then
    let g :=
      if deleteItem then
        let g := upd_registry (fun r => set_objects (removeFrom (objects r) this) r) g in
        let g := upd_registry (fun r => set_loot (removeFrom (loot r) this) r) g in
        let g := upd_gameDirty (pushDeleted this) g in
        let g := destroyBody (body (getLoot g this)) g in
        updLoot this (upd_lootObject (set_interactable false)) g
      else g in
    let g :=
      if playerDirty then
        let g := upd_gameDirty (pushFull p) g in
        updPlayer p (upd_playerDirty (pushFull p)) g
      else g in
    let g := updPlayer p (upd_gear (set_inventoryDirty true)) g in
    updPlayer p (upd_gear (set_inventoryEmpty false)) g
  else g.

(** [Loot.interact(p)]. The method returns nothing; the model also hands
    back the final value of its local [result]. *)
Definition interact (this p : Ref) (g : Game) : PickupMsgType * Game :=
  let '(result, deleteItem, playerDirty, g) := interactDispatch this p g in
  (result, interactFinish this p result deleteItem playerDirty g).

End Model.

(** ** [class Game]: the callbacks the constructor installs *)

Global Instance Bullet_inhabited : Inhabited Bullet :=
  populate (MkBullet 1%positive "" 1%positive 0 zeroVec zeroVec 0).

Definition bulletAt (h : gmap Ref Obj) (r : Ref) : Bullet :=
  match h !! r with Some (OBullet b) => b | _ => inhabitant end.
Definition getBullet (g : Game) (r : Ref) : Bullet := bulletAt (heap g) r.

(** The properties the callbacks read from the user data of a fixture.
    A property the object does not have reads as [undefined]: no kind,
    and a false flag. *)
Definition objLayer (o : Obj) : Z :=
  match o with
  | OPlayer p => layer p | OObstacle o => layer o | OLoot l => layer l
  | OBullet b => bulletLayer b | OBoundary => 0
  end.
Definition objKind (o : Obj) : option ObjectKind :=
  match o with
  | OPlayer p => Some (kind p) | OObstacle o => Some (kind o) | OLoot l => Some (kind l)
  | OBullet _ => None | OBoundary => Some KObstacle
  end.
Definition objIsBullet (o : Obj) : bool :=
  match o with OBullet _ => true | _ => false end.
Definition objDamageable (o : Obj) : bool :=
  match o with
  | OPlayer p => damageable p | OObstacle o => damageable o | OLoot l => damageable l
  | OBullet _ => false | OBoundary => false
  end.
Definition objBody (o : Obj) : option Ref :=
  match o with
  | OPlayer p => body p | OObstacle o => body o | OLoot l => body l
  | OBullet b => Some (bulletBody b) | OBoundary => None
  end.
Definition objDead (o : Obj) : bool :=
  match o with
  | OPlayer p => dead p | OObstacle o => dead o | OLoot l => dead l
  | OBullet _ => false | OBoundary => false
  end.
Definition objInteractable (o : Obj) : bool :=
  match o with
  | OPlayer p => interactable p | OObstacle o => interactable o | OLoot l => interactable l
  | OBullet _ => false | OBoundary => false
  end.

Definition kindIs (o : Obj) (k : ObjectKind) : bool :=
  bool_decide (objKind o = Some k).

(** [Fixture.prototype.shouldCollide], on the user data of [this] and of
    [that]. *)
Definition shouldCollide (thisObject thatObject : Obj) : bool :=
  if negb (objLayer thisObject =? objLayer thatObject) then false
  else if kindIs thisObject KPlayer then
    kindIs thatObject KObstacle || objIsBullet thatObject
  else if objIsBullet thisObject then
    negb (kindIs thatObject KLoot)
    && (kindIs thatObject KPlayer || kindIs thatObject KObstacle || objIsBullet thatObject)
  else if kindIs thisObject KLoot then
    kindIs thatObject KObstacle || kindIs thatObject KLoot
  else false.

(** The ["pre-solve"] listener: the value it gives
    [Settings.maxLinearCorrection]. *)
Definition preSolve (objectA objectB : Obj) : Q :=
  if kindIs objectA KLoot || kindIs objectB KLoot then (2 # 10) else 0.

Definition pushDamageRecord (r : DamageRecord) : Game -> Game :=
  upd_ephemeral (fun e => set_damageRecords (damageRecords e ++ [r]) e).

(** The ["begin-contact"] listener, on the user data of fixture A and of
    fixture B. *)
Definition beginContact (a b : Ref) (g : Game) : Game :=
  match heap g !! a, heap g !! b with
  | Some objectA, Some objectB =>
      if objIsBullet objectA && objDamageable objectB then
        pushDamageRecord (MkDamageRecord b (shooter (getBullet g a)) a) g
      else if objIsBullet objectB && objDamageable objectA then
        pushDamageRecord (MkDamageRecord a (shooter (getBullet g b)) b) g
      else g
  | _, _ => g
  end.

(** What one [world.step(30)] does that the game sees: bodies are at new
    positions, and the listener has run on the contacts that began. *)
Record StepOutcome : Type := MkStepOutcome {
  moved : list (Ref * Vec2);
  contacts : list (Ref * Ref)
}.

Definition moveBody (m : Ref * Vec2) (g : Game) : Game :=
  upd_machine (set_world
    (alter (fun bd => MkBody (snd m) (bodyVelocity bd) (bodyDestroyed bd) (userData bd))
           (fst m) (world g))) g.

Definition worldStep (st : StepOutcome) (g : Game) : Game :=
  let g := foldl (fun g m => moveBody m g) g (moved st) in
  foldl (fun g c => beginContact (fst c) (snd c) g) g (contacts st).

(** ** [Game.tick]: the body of the timeout callback *)

Section GameModel.

Variable E : Env.

(** [Date.now()]: the next reading of the clock. *)
Definition dateNow (g : Game) : Z * Game :=
  (Date_now E (clockReads g), upd_machine (fun m => set_clockReads (S (clockReads m)) m) g).

Definition getSlot (s : SlotName) (x : Gear) : WeaponSlot :=
  match s with PrimaryGun => primaryGun x | SecondaryGun => secondaryGun x | MeleeSlot => melee x end.
Definition updSlot (s : SlotName) (f : WeaponSlot -> WeaponSlot) (x : Gear) : Gear :=
  match s with
  | PrimaryGun => set_primaryGun (f (primaryGun x)) x
  | SecondaryGun => set_secondaryGun (f (secondaryGun x)) x
  | MeleeSlot => set_melee (f (melee x)) x
  end.

(** [object.damage(amount, source)]: [Loot.damage] is empty; the other
    classes are outside the sources. *)
Definition callDamage (target : Ref) (amount : Q) (source : Ref) (g : Game) : Game :=
  match heap g !! target with
  | Some (OLoot _) => g
  | _ => call (CDamage target amount source) g
  end.

(** [object.interact(p)]. *)
Definition callInteract (target p : Ref) (g : Game) : Game :=
  match heap g !! target with
  | Some (OLoot _) => snd (interact E target p g)
  | _ => call (CInteract target p) g
  end.

(** Lines 186 to 191: update loot positions. *)
Definition updateLootPosition (g : Game) (l : Ref) : Game :=
  let old := oldPos (getLoot g l) in
  let pos := lootPosition g l in
  let g := if Qneb (vx old) (vx pos) || Qneb (vy old) (vy pos)
           then upd_gameDirty (pushPartial l) g else g in
  updLoot l (set_oldPos pos) g.

Definition updateLootPositions (g : Game) : Game :=
  foldl updateLootPosition g (loot g).

(** Lines 193 to 197: the damage records of this step. *)
Definition applyDamageRecord (g : Game) (r : DamageRecord) : Game :=
  let b := getBullet g (bullet r) in
  let g := callDamage (damaged r) (damage (Bullets E (bulletTypeString b))) (damager r) g in
  let g := destroyBody (Some (bulletBody b)) g in
  upd_registry (fun x => set_bullets (removeFrom (bullets x) (bullet r)) x) g.

Definition drainDamageRecords (g : Game) : Game :=
  foldl applyDamageRecord g (damageRecords g).

(** *** First loop, per active player *)

Definition movement (p : Ref) (g : Game) : Game :=
  let pl := getPlayer g p in
  if isMobile pl then
    call (CSetVelocity p (vx (touchMoveDir pl) * speed pl) (vy (touchMoveDir pl) * speed pl)) g
  else if movingUp pl && movingLeft pl then call (CSetVelocity p (- diagonalSpeed pl) (diagonalSpeed pl)) g
  else if movingUp pl && movingRight pl then call (CSetVelocity p (diagonalSpeed pl) (diagonalSpeed pl)) g
  else if movingDown pl && movingLeft pl then call (CSetVelocity p (- diagonalSpeed pl) (- diagonalSpeed pl)) g
  else if movingDown pl && movingRight pl then call (CSetVelocity p (diagonalSpeed pl) (- diagonalSpeed pl)) g
  else if movingUp pl then call (CSetVelocity p 0 (speed pl)) g
  else if movingDown pl then call (CSetVelocity p 0 (- speed pl)) g
  else if movingLeft pl then call (CSetVelocity p (- speed pl) 0) g
  else if movingRight pl then call (CSetVelocity p (speed pl) 0) g
  else call (CSetVelocity p 0 0) g.

(** Pick up nearby items if on mobile. *)
Definition touchPickupOne (p : Ref) (g : Game) (object : Ref) : Game :=
  match heap g !! object with
  | Some (OLoot _) =>
      if Qle_bool (distanceBetween E (playerPosition E g p) (lootPosition g object))
                  (scale (getPlayer g p) + touchLootRadMult E)
      then snd (interact E object p g) else g
  | _ => g
  end.

Definition touchPickup (p : Ref) (g : Game) : Game :=
  if isMobile (getPlayer g p)
  then foldl (touchPickupOne p) g (visibleObjects (getPlayer g p))
  else g.

(** Drain adrenaline, then health regeneration from adrenaline. *)
Definition drainBoost (s : Vitals) : Vitals :=
  if Qltb 0 (boost s) then set_boost (boost s - (1136 # 100000)) s else s.
Definition regenerate (s : Vitals) : Vitals :=
  if Qltb 0 (boost s) && Qle_bool (boost s) 25 then set_health (health s + (50303 # 10000000)) s
  else if Qltb 25 (boost s) && Qle_bool (boost s) 50 then set_health (health s + (12624 # 1000000)) s
  else if Qltb 50 (boost s) && Qle_bool (boost s) (875 # 10) then set_health (health s + (1515 # 100000)) s
  else if Qltb (875 # 10) (boost s) && Qle_bool (boost s) 100 then set_health (health s + (1766 # 100000)) s
  else s.

Definition adrenaline (p : Ref) (g : Game) : Game :=
  updPlayer p (upd_vitals regenerate) (updPlayer p (upd_vitals drainBoost) g).

(** Action item logic. *)
Definition itemEffect (ts : string) (s : Vitals) : Vitals :=
  if decide (ts = "bandage") then set_health (health s + 15) s
  else if decide (ts = "healthkit") then set_health 100 s
  else if decide (ts = "soda") then set_boost (boost s + 25) s
  else if decide (ts = "painkiller") then set_boost (boost s + 50) s
  else s.

Definition markFullDirty (p : Ref) (g : Game) : Game :=
  updPlayer p (upd_playerDirty (pushFull p)) (upd_gameDirty (pushFull p) g).

Definition actionLogic (p : Ref) (g : Game) : Game :=
  if actionDirty (getPlayer g p) then
    let '(now, g) := dateNow g in
    if now - actionItemUseEnd (getPlayer g p) >? 0 then
      let g :=
        if actionType (getPlayer g p) =? Action_UseItem E then
          let ts := actionItemTypeString (getPlayer g p) in
          let g := updPlayer p (upd_vitals (itemEffect ts)) g in
          let g := updPlayer p (upd_gear (fun x =>
                     inventorySet ts (num_sub (default NaN (inventory x !! ts)) (Int 1)) x)) g in
          let g := updPlayer p (upd_gear (set_inventoryDirty true)) g in
          let g := updPlayer p (upd_action (fun a =>
                     MkAction (actionDirty a) (actionItemTypeString a) (actionItemTypeId a)
                              (actionItemUseEnd a) (actionType a) (actionSeq a) false)) g in
          call (CRecalculateSpeed p) g
        else g in
      let g := updPlayer p (upd_action (fun a =>
                 MkAction false "" 0 (actionItemUseEnd a) 0 0 (usingItem a))) g in
      markFullDirty p g
    else g
  else g.

(** Modelled from the spec: the constructor of [Bullet] is not among the
    sources. A bullet carries its shooter, its type and a physics body at
    the position it is created at. *)
Definition newBullet (sh : Ref) (pos dir : Vec2) (ts : string) (source lay : Z) (g : Game)
    : Ref * Game :=
  let this := fresh (dom (heap g)) in
  let '(b, g) := createBody pos zeroVec this g in
  (this, upd_machine (set_heap (<[this := OBullet (MkBullet sh ts b lay pos dir source)]> (heap g))) g).

(** The gun logic, which the two firing branches share word for word. *)
Definition fireGun (p : Ref) (g : Game) : Game :=
  let pl := getPlayer g p in
  let weapon := Weapons E (slotTypeString (getSlot (activeWeapon pl) pl)) in
  let spread := degreesToRadians E (shotSpread weapon) in
  let angle := (unitVecToRadians E (direction pl) + randomFloat E (randomReads g) (- spread) spread)%Q in
  let g := drawRandom g in
  let pos := playerPosition E g p in
  let '(b, g) :=
    newBullet p
      (MkVec2 (vx pos + barrelLength weapon * Math_cos E angle)
              (vy pos + barrelLength weapon * Math_sin E angle))
      (direction pl) (bulletType weapon) (slotTypeId (getSlot (activeWeapon pl) pl)) 0 g in
  let g := upd_registry (fun x => set_bullets (bullets x ++ [b]) x) g in
  upd_ephemeral (fun x => set_dirtyBullets (dirtyBullets x ++ [b]) x) g.

(** The melee logic. [meleeCandidate] is the guard of line 291. *)
Definition meleeCandidate (g : Game) (p object : Ref) : bool :=
  match heap g !! object with
  | Some o => bool_decide (objBody o <> None) && negb (objDead o)
              && bool_decide (object <> p) && objDamageable o
  | None => false
  end.

(** Lines 292 to 301; [None] when [record] is left [undefined]. *)
Definition meleeRecord (g : Game) (object : Ref) (pos : Vec2) (radius : Q)
    : option CollisionRecord :=
  match heap g !! object with
  | Some (OObstacle o) =>
      Some match collisionType (collision o) with
           | Circle => distanceToCircle E (position o) (collisionRad (collision o)) pos radius
           | Rectangle => distanceToRect E (collisionMin (collision o)) (collisionMax (collision o)) pos radius
           end
  | Some (OPlayer q) => Some (distanceToCircle E (playerPosition E g object) (scale q) pos radius)
  | _ => None
  end.

(** The loop of lines 290 to 307 over the visible objects, from the
    current [minDist] and [closestObject]; [None] when reading
    [record.collided] raises. *)
Fixpoint closestScan (g : Game) (p : Ref) (pos : Vec2) (radius : Q) (l : list Ref)
    (minDist : Q) (closestObject : option Ref) : option (Q * option Ref) :=
  match l with
  | [] => Some (minDist, closestObject)
  | object :: l' =>
      if meleeCandidate g p object then
        match meleeRecord g object pos radius with
        | Some record =>
            if collided record && Qltb (distance record) minDist
            then closestScan g p pos radius l' (distance record) (Some object)
            else closestScan g p pos radius l' minDist closestObject
        | None => None
        end
      else closestScan g p pos radius l' minDist closestObject
  end.

(** The point the punch is tested at (lines 285 to 289). *)
Definition meleePosition (g : Game) (p : Ref) : Vec2 :=
  let pl := getPlayer g p in
  let weapon := Weapons E (slotTypeString (melee pl)) in
  let angle := unitVecToRadians E (direction pl) in
  let offset := Vec2_add (attackOffset weapon) (Vec2_mul (MkVec2 1 0) (scale pl - 1)) in
  Vec2_add (playerPosition E g p) (vec2Rotate E offset angle).

Definition meleeRadius (g : Game) (p : Ref) : Q :=
  attackRad (Weapons E (slotTypeString (melee (getPlayer g p)))).

Definition startPunch (p : Ref) (g : Game) : Game :=
  if negb (animActive (getPlayer g p)) then
    markFullDirty p (updPlayer p (upd_anim (fun _ => MkAnim true 1 1 0)) g)
  else g.

Definition meleeLogic (p : Ref) (g : Game) : option Game :=
  let g := startPunch p g in
  '(_, closestObject) ← closestScan g p (meleePosition g p) (meleeRadius g p)
                          (visibleObjects (getPlayer g p)) MAX_VALUE None;
  match closestObject with
  | Some c =>
      let g := callDamage c 24 p g in
      Some (if default false (objInteractable <$> heap g !! c) then callInteract c p g else g)
  | None => Some g
  end.

(** [p.activeWeapon.cooldown = Date.now()]. *)
Definition stampCooldown (p : Ref) (g : Game) : Game :=
  let '(now, g) := dateNow g in
  updPlayer p (upd_gear (fun x => updSlot (activeWeapon x) (set_cooldown now) x)) g.

(** Weapon logic (lines 267 to 347); [None] when it raises. *)
Definition weaponLogic (p : Ref) (g : Game) : option Game :=
  let pl := getPlayer g p in
  if shootStart pl then
    let g := updPlayer p (upd_intent (set_shootStart false)) g in
    if weaponCooldownOver E g p then
      let g := stampCooldown p g in
      match weaponType (getSlot (activeWeapon pl) pl) with
      | Melee => meleeLogic p g
      | Gun => Some (fireGun p g)
      | Throwable => Some g
      end
    else Some g
  else if shootHold pl
          && bool_decide (weaponType (getSlot (activeWeapon pl) pl) = Gun)
          && bool_decide (fireMode (Weapons E (slotTypeString (getSlot (activeWeapon pl) pl))) = "auto")
  then
    if weaponCooldownOver E g p then
      let g := stampCooldown p g in
      Some (fireGun p g)
    else Some g
  else Some g.

(** Animation logic (lines 349 to 361). *)
Definition animationLogic (p : Ref) (g : Game) : Game :=
  let g := if animActive (getPlayer g p)
           then updPlayer p (upd_anim (fun a =>
                  MkAnim (animActive a) (animType a) (animSeq a) (animTime a + 1))) g
           else g in
  let g :=
    if animTime (getPlayer g p) >? 8 then
      let g := updPlayer p (upd_anim (fun a =>
                 MkAnim false (animType a) (animSeq a) (animTime a))) g in
      let g := markFullDirty p g in
      updPlayer p (upd_anim (fun a => MkAnim (animActive a) 0 0 (-1))) g
    else if moving (getPlayer g p) then
      updPlayer p (upd_playerDirty (pushPartial p)) (upd_gameDirty (pushPartial p) g)
    else g in
  updPlayer p (upd_intent (set_moving false)) g.

(** The body of the first loop for one player: what comes before the
    weapon logic, and the whole. *)
Definition untilWeaponLogic (p : Ref) (g : Game) : Game :=
  let g := movement p g in
  let g := touchPickup p g in
  let g := adrenaline p g in
  actionLogic p g.

Definition playerLogic (p : Ref) (g : Game) : option Game :=
  let g := untilWeaponLogic p g in
  g ← weaponLogic p g;
  Some (animationLogic p g).

Fixpoint forEach (l : list Ref) (body : Ref -> Game -> option Game) (g : Game) : option Game :=
  match l with
  | [] => Some g
  | x :: l' => g ← body x g; forEach l' body g
  end.

Definition firstLoop (g : Game) : option Game :=
  forEach (activePlayers g) playerLogic g.


(** *** Second loop, per connected player *)

Definition includes (l : list Ref) (x : Ref) : bool := bool_decide (x ∈ l).

Definition nonEmpty {A : Type} (l : list A) : bool :=
  match l with [] => false | _ => true end.

Definition sendPacket (p : Ref) (packet : Packet) : Game -> Game :=
  call (CSendPacket p packet).

(** Calculate visible objects. *)
Definition refreshVisible (p : Ref) (g : Game) : Game :=
  if (movesSinceLastUpdate (getPlayer g p) >? 8) || nonEmpty (fullDirtyObjects g)
     || nonEmpty (partialDirtyObjects g) || nonEmpty (deletedObjects g)
  then
    let g := call (CUpdateVisibleObjects p) g in
    updPlayer p (upd_conn (set_visibleObjects (visibleFrom E g p))) g
  else g.

(** Update role. *)
Definition updateRole (p : Ref) (g : Game) : Game :=
  if roleLost (getPlayer g p) then updPlayer p (upd_conn (set_role 0 false)) g else g.

(** Emotes, explosions. *)
Definition copyBroadcasts (p : Ref) (g : Game) : Game :=
  let g := if nonEmpty (emotes g)
           then updPlayer p (upd_playerDirty (set_emotes (emotes g))) g else g in
  if nonEmpty (explosions g)
  then updPlayer p (upd_playerDirty (set_explosions (explosions g))) g else g.

(** Full objects, partial objects, deleted objects. The guards on the
    lengths are left out: the loops do nothing on an empty list. *)
Definition collectFull (p : Ref) (g : Game) : Game :=
  foldl (fun g object =>
           if includes (visibleObjects (getPlayer g p)) object
           then updPlayer p (upd_playerDirty (pushFull object)) g else g)
        g (fullDirtyObjects g).

Definition collectPartial (p : Ref) (g : Game) : Game :=
  foldl (fun g object =>
           if includes (visibleObjects (getPlayer g p)) object
           then updPlayer p (upd_playerDirty (pushPartial object)) g else g)
        g (partialDirtyObjects g).

Definition collectDeleted (p : Ref) (g : Game) : Game :=
  foldl (fun g object => updPlayer p (upd_playerDirty (pushDeleted object)) g)
        g (deletedObjects g).

(** Send packets. *)
Definition sendUpdates (p : Ref) (g : Game) : Game :=
  let g := sendPacket p (UpdatePacket p) g in
  let g := if aliveCountDirty g
           then sendPacket p (default UndefinedPacket (aliveCounts g)) g else g in
  let g := foldl (fun g kill => sendPacket p kill g) g (kills g) in
  foldl (fun g roleAnnouncement => sendPacket p roleAnnouncement g) g (roleAnnouncements g).

Definition connectionUpdate (g : Game) (p : Ref) : Game :=
  let g := refreshVisible p g in
  let g := updateRole p g in
  let g := copyBroadcasts p g in
  let g := collectFull p g in
  let g := collectPartial p g in
  let g := collectDeleted p g in
  sendUpdates p g.

Definition secondLoop (g : Game) : Game :=
  foldl connectionUpdate g (connectedPlayers g).

(** *** Reset everything (lines 415 to 433) *)

Definition resetEverything (g : Game) : Game :=
  let g := upd_gameDirty (set_fullDirtyObjects []) g in
  let g := upd_gameDirty (set_partialDirtyObjects []) g in
  let g := upd_gameDirty (set_deletedObjects []) g in
  let g := upd_ephemeral (set_newPlayers []) g in
  let g := upd_ephemeral (set_deletedPlayers []) g in
  let g := upd_gameDirty (set_emotes []) g in
  let g := upd_gameDirty (set_explosions []) g in
  let g := upd_ephemeral (set_dirtyBullets []) g in
  let g := upd_ephemeral (set_kills []) g in
  let g := upd_ephemeral (set_roleAnnouncements []) g in
  let g := upd_ephemeral (set_damageRecords []) g in
  upd_session clear_sessionFlags g.

(** Lines 435 to 446: the time the tick took, and the delay of the next. *)
Definition wrapUp (tickStart : Z) (g : Game) : Z * Game :=
  let '(now, g) := dateNow g in
  let tickTime := now - tickStart in
  let g :=
    if performanceLog E then
      let g := upd_session (fun s => set_tickTimes (tickTimes s ++ [tickTime]) s) g in
      if bool_decide (length (tickTimes g) = performanceLogInterval E) then
        let g := call (CLog (foldl Z.add 0 (tickTimes g)) (length (tickTimes g))) g in
        upd_session (set_tickTimes []) g
      else g
    else g in
  (Z.max 0 (30 - tickTime), g).

(** From the physics step to the end of the first loop: the state the
    second loop serializes from. [None] when the first loop raises. *)
Definition simulate (st : StepOutcome) (g : Game) : option Game :=
  (* Update physics *)
  let g := worldStep st g in
  (* Create an alive count packet *)
  let g := if aliveCountDirty g
           then upd_session (set_aliveCounts (Some AliveCountsPacket)) g else g in
  let g := updateLootPositions g in
  let g := drainDamageRecords g in
  firstLoop g.

(** The callback of [tick]. The result is the delay the next tick is
    scheduled with; there is none when the game is no longer active, and
    the whole is [None] when the callback raises (nothing is scheduled
    then either). *)
Definition tick (st : StepOutcome) (g : Game) : option (option Z * Game) :=
  let '(tickStart, g) := dateNow g in
  if negb (active g) then Some (None, g)
  else
    g ← simulate st g;
    let g := secondLoop g in
    let g := resetEverything g in
    let '(newDelay, g) := wrapUp tickStart g in
    Some (Some newDelay, g).

(** ** [Game.addPlayer], [Game.removePlayer], [Game.end] *)

Definition addPlayer (g : Game) : Ref * Game :=
  let '(spawnPosition, g) :=
    match fixedSpawnLocation E with
    | Some (x, y) => (MkVec2 x y, g)
    | None => (randomVec E (randomReads g) 75 (mapWidth E - 75) 75 (mapHeight E - 75),
               drawRandom g)
    end in
  let '(n, g) := nextObjectId g in
  let '(p, g) := alloc (OPlayer (newPlayer E n spawnPosition)) g in
  let g := pushObjects p g in
  let g := upd_registry (fun r => set_players (players r ++ [p]) r) g in
  let g := upd_registry (fun r => set_connectedPlayers (connectedPlayers r ++ [p]) r) g in
  let g := upd_registry (fun r => set_activePlayers (activePlayers r ++ [p]) r) g in
  let g := upd_ephemeral (fun e => set_newPlayers (newPlayers e ++ [p]) e) g in
  let g := upd_gameDirty (pushFull p) g in
  let g := upd_session (fun s => set_aliveCount (aliveCount s + 1) true s) g in
  let g := upd_session (set_playerInfosDirty true) g in
  let g := call (CUpdateVisibleObjects p) g in
  let g := updPlayer p (upd_conn (set_visibleObjects (visibleFrom E g p))) g in
  let g := foldl (fun g player =>
                    if decide (player = p) then g
                    else
                      let g := updPlayer player (upd_playerDirty (pushFull p)) g in
                      updPlayer p (upd_playerDirty (pushFull player)) g)
                 g (players g) in
  let g := updPlayer p (upd_playerDirty (pushFull p)) g in
  let g := sendPacket p (JoinedPacket p) g in
  let stream : list Packet := [] in                    (* SurvivBitStream.alloc(32768) *)
  let stream := (stream ++ [MapPacket p])%list in
  let stream := (stream ++ [UpdatePacket p])%list in
  let stream := (stream ++ [AliveCountsPacket])%list in
  let g := call (CSendData p stream) g in
  (p, g).

Definition removePlayer (p : Ref) (g : Game) : Game :=
  let g := destroyBody (body (getPlayer g p)) g in
  let g :=
    if inventoryEmpty (getPlayer g p) then
      let g := upd_registry (fun r => set_objects (removeFrom (objects r) p) r) g in
      let g := upd_gameDirty (fun d => set_partialDirtyObjects (removeFrom (partialDirtyObjects d) p) d) g in
      let g := upd_gameDirty (fun d => set_fullDirtyObjects (removeFrom (fullDirtyObjects d) p) d) g in
      let g := upd_ephemeral (fun e => set_deletedPlayers (deletedPlayers e ++ [p]) e) g in
      upd_gameDirty (pushDeleted p) g
    else
      let g := updPlayer p (upd_intent (set_direction (MkVec2 1 0))) g in
      let g := updPlayer p (upd_conn (set_disconnected true
                 (Some (getPosition g (body (getPlayer g p)))))) g in
      upd_gameDirty (pushFull p) g in
  let g := upd_registry (fun r => set_activePlayers (removeFrom (activePlayers r) p) r) g in
  let g := upd_registry (fun r => set_connectedPlayers (removeFrom (connectedPlayers r) p) r) g in
  if negb (dead (getPlayer g p))
  then upd_session (fun s => set_aliveCount (aliveCount s - 1) true s) g
  else g.

Definition endGame : Game -> Game := upd_session (set_active false).

End GameModel.

(** ** Sample data

    A small table set and a few game states, on which the functions above
    are run. Distances use the city-block metric, which rationals
    compute exactly. *)

Definition sampleDistance (a b : Vec2) : Q :=
  (Qabs (vx a - vx b) + Qabs (vy a - vy b))%Q.

Definition sampleCircle (c : Vec2) (r : Q) (pos : Vec2) (rad : Q) : CollisionRecord :=
  MkCollisionRecord (Qltb (sampleDistance c pos) (r + rad)) (sampleDistance c pos - r - rad).

Definition sampleRect (lo hi pos : Vec2) (rad : Q) : CollisionRecord :=
  MkCollisionRecord
    (Qle_bool (vx lo - rad) (vx pos) && Qle_bool (vx pos) (vx hi + rad)
     && Qle_bool (vy lo - rad) (vy pos) && Qle_bool (vy pos) (vy hi + rad))
    (sampleDistance lo pos).

Definition samplePlayer (n : Z) (mobile : bool) (b : option Ref) (visible : list Ref) : Player :=
  MkPlayer (MkGameObject n "" 0 0 KPlayer b false true false)
           (MkIntent false false false false zeroVec false false false (MkVec2 1 0))
           (MkVitals 12 8 1 0 100)
           (MkAction false "" 0 0 0 0 false)
           (MkAnim false 0 0 (-1))
           (MkGear {[ "bandage" := Int 3; "1xscope" := Int 1 ]} "1xscope" (Int 0) (Int 0) (Int 0)
                   (MkWeaponSlot "" 0 Gun 0) (MkWeaponSlot "" 0 Gun 0)
                   (MkWeaponSlot "fists" 1 Melee 0) MeleeSlot false false true)
           (MkConn mobile visible 0 0 false false None)
           (MkDirty [] [] [] [] []).

Definition sampleEnv : Env :=
  MkEnv
    (fun ts => MkItemDef (if decide (ts = "2xscope") then 2 else if decide (ts = "4xscope") then 4 else 1))
    (fun ts => MkWeaponDef 2 (9 # 10) (MkVec2 (135 # 100) 0) 1 1 "bullet_mp5" "auto")
    (fun ts => MkBulletDef 11)
    (fun ts => Z.of_nat (String.length ts))
    (fun ts => if decide (ts = "bandage") then Some [5; 10; 15; 30]
               else if decide (ts = "9mm") then Some [120; 240; 330; 420] else None)
    1 3 2 false 10%nat (Some (100, 100)%Q) 720 720
    sampleDistance sampleCircle sampleRect
    (fun _ => 0%Q) (fun v _ => v) (fun d => d) (fun _ => 1%Q) (fun _ => 0%Q) 3
    (fun n => 1000 + Z.of_nat n) (fun _ => 0%Q) (fun _ lo _ => lo) (fun _ x _ y _ => MkVec2 x y)
    (fun _ _ => true)
    (fun g p => getPosition g (body (getPlayer g p)))
    (fun g _ => objects g)
    (fun n pos => samplePlayer n false None []).

Definition sampleLoot (n : Z) (ts : string) (cnt : Z) (b : Ref) (pos : Vec2) : Loot :=
  MkLoot (MkGameObject n ts (Z.of_nat (String.length ts)) 0 KLoot (Some b) false false true)
         (Int cnt) 1 pos.

Definition sampleBody (pos : Vec2) (data : Ref) : Body := MkBody pos zeroVec false (Some data).

Definition sampleGame (h : gmap Ref Obj) (w : gmap Ref Body) (r : Registry) (d : Dirty)
    (e : Ephemeral) : Game :=
  MkGame (MkMachine h w [] 0 0) r d e (MkSession false (0, 0) false 1 false None false false true []).

Definition noDirty : Dirty := MkDirty [] [] [] [] [].
Definition noEphemeral : Ephemeral := MkEphemeral [] [] [] [] [] [] [].

(** One player (reference 1, body 11) next to a stack of five bandages
    (reference 2, body 12). *)
Definition lootGame (mobile : bool) (held : Z) : Game :=
  sampleGame
    {[ 1%positive := OPlayer (upd_gear (inventorySet "bandage" (Int held))
                                (samplePlayer 0 mobile (Some 11%positive) [2%positive]));
       2%positive := OLoot (sampleLoot 1 "bandage" 5 12%positive zeroVec) ]}
    {[ 11%positive := sampleBody zeroVec 1%positive; 12%positive := sampleBody zeroVec 2%positive ]}
    (MkRegistry [1; 2]%positive 1 0 [2%positive] [1%positive] [1%positive] [1%positive] [])
    noDirty noEphemeral.

(** One player wearing a level-1 helmet, next to a level-2 helmet. *)
Definition helmetGame : Game :=
  sampleGame
    {[ 1%positive := OPlayer (upd_gear (set_helmetLevel (Int 1))
                                (samplePlayer 0 false (Some 11%positive) [2%positive]));
       2%positive := OLoot (sampleLoot 1 "helmet02" 1 12%positive (MkVec2 3 4)) ]}
    {[ 11%positive := sampleBody zeroVec 1%positive; 12%positive := sampleBody (MkVec2 3 4) 2%positive ]}
    (MkRegistry [1; 2]%positive 1 0 [2%positive] [1%positive] [1%positive] [1%positive] [])
    noDirty noEphemeral.

(** A shooter (1), two players standing on the same spot (2 and 3) and a
    bullet (4, body 14) of the shooter in flight. *)
Definition bulletGame : Game :=
  sampleGame
    {[ 1%positive := OPlayer (samplePlayer 0 false (Some 11%positive) []);
       2%positive := OPlayer (samplePlayer 1 false (Some 12%positive) []);
       3%positive := OPlayer (samplePlayer 2 false (Some 13%positive) []);
       4%positive := OBullet (MkBullet 1%positive "bullet_mp5" 14%positive 0 zeroVec (MkVec2 1 0) 0) ]}
    {[ 11%positive := sampleBody zeroVec 1%positive;
       12%positive := sampleBody (MkVec2 5 0) 2%positive;
       13%positive := sampleBody (MkVec2 5 0) 3%positive;
       14%positive := sampleBody (MkVec2 4 0) 4%positive ]}
    (MkRegistry [1; 2; 3]%positive 2 0 [] [1; 2; 3]%positive [1; 2; 3]%positive [1; 2; 3]%positive
                [4%positive])
    noDirty noEphemeral.

(** The step in which the bullet begins to touch both players. *)
Definition twoContacts : StepOutcome :=
  MkStepOutcome [(14%positive, MkVec2 5 0)] [(4%positive, 2%positive); (3%positive, 4%positive)].

(** The step in which the stack of bandages slides to the right. *)
Definition lootSlides : StepOutcome :=
  MkStepOutcome [(12%positive, MkVec2 (1 # 2) 0)] [].


(** An attacker (1) with its fists, who asks to fire, a barrel (3) and a
    second player (2) in front of it; the second player is the closer. *)
Definition punchGame : Game :=
  sampleGame
    {[ 1%positive := OPlayer (upd_intent (set_shootStart true)
                                (samplePlayer 0 false (Some 11%positive) [3; 2]%positive));
       2%positive := OPlayer (samplePlayer 1 false (Some 12%positive) []);
       3%positive := OObstacle (MkObstacle
                                  (MkGameObject 2 "barrel" 6 0 KObstacle (Some 13%positive)
                                                false true true)
                                  (MkVec2 3 0) (MkCollision Circle 1 zeroVec zeroVec)) ]}
    {[ 11%positive := sampleBody zeroVec 1%positive;
       12%positive := sampleBody (MkVec2 2 0) 2%positive;
       13%positive := sampleBody (MkVec2 3 0) 3%positive ]}
    (MkRegistry [1; 2; 3]%positive 2 0 [] [1; 2]%positive [1; 2]%positive [1; 2]%positive [])
    noDirty noEphemeral.

(** Another object part under the same player. *)
Definition withObject (o : GameObject) (q : Player) : Player :=
  MkPlayer o (intent q) (vitals q) (action q) (anim q) (gear q) (conn q) (playerDirty q).

(** An attacker (1) with its fists, who asks to fire; its punch is tested
    at (1.35, 0) within 0.9. Around that point, and visible to the
    attacker: the attacker itself; a dead player (4), a player without a
    body (5), a wall that cannot be damaged (6) and a stack of bandages
    (7), all closer to the point than anything the punch may hit; then a
    second player (2), a crate with a rectangle for collision (8) and a
    barrel with a circle (3), which is interactable and the closest of
    the three. *)
Definition brawlGame : Game :=
  sampleGame
    {[ 1%positive := OPlayer (upd_intent (set_shootStart true)
                                (samplePlayer 0 false (Some 11%positive)
                                              [1; 4; 5; 6; 7; 2; 8; 3]%positive));
       2%positive := OPlayer (samplePlayer 1 false (Some 12%positive) []);
       3%positive := OObstacle (MkObstacle
                                  (MkGameObject 2 "barrel" 6 0 KObstacle (Some 13%positive)
                                                false true true)
                                  (MkVec2 3 0) (MkCollision Circle 1 zeroVec zeroVec));
       4%positive := OPlayer (withObject
                                (MkGameObject 3 "" 0 0 KPlayer (Some 14%positive) true true false)
                                (samplePlayer 3 false (Some 14%positive) []));
       5%positive := OPlayer (samplePlayer 4 false None []);
       6%positive := OObstacle (MkObstacle
                                  (MkGameObject 5 "wall" 4 0 KObstacle (Some 16%positive)
                                                false false false)
                                  (MkVec2 (135 # 100) 0) (MkCollision Circle 1 zeroVec zeroVec));
       7%positive := OLoot (sampleLoot 6 "bandage" 5 17%positive (MkVec2 (135 # 100) 0));
       8%positive := OObstacle (MkObstacle
                                  (MkGameObject 7 "crate" 5 0 KObstacle (Some 18%positive)
                                                false true false)
                                  (MkVec2 3 0)
                                  (MkCollision Rectangle 0 (MkVec2 2 (-1)) (MkVec2 4 1))) ]}
    {[ 11%positive := sampleBody zeroVec 1%positive;
       12%positive := sampleBody (MkVec2 (32 # 10) 0) 2%positive;
       13%positive := sampleBody (MkVec2 3 0) 3%positive;
       14%positive := sampleBody (MkVec2 (135 # 100) 0) 4%positive;
       16%positive := sampleBody (MkVec2 (135 # 100) 0) 6%positive;
       17%positive := sampleBody (MkVec2 (135 # 100) 0) 7%positive;
       18%positive := sampleBody (MkVec2 3 0) 8%positive ]}
    (MkRegistry [1; 2; 3; 4; 5; 6; 7; 8]%positive 7 0 [7%positive] [1; 2; 4; 5]%positive
                [1; 2]%positive [1; 2]%positive [])
    noDirty noEphemeral.

(** The game of the bandages at the end of a first loop that left dirty
    objects: 2 partly, 1, 9 and 2 fully, 7 deleted; 9 and 7 are not
    registered, so that no player sees them. *)
Definition dirtyGame : Game :=
  upd_gameDirty (fun _ => MkDirty [2%positive] [1; 9; 2]%positive [7%positive] [] [])
                (lootGame false 0).


(** ** Reading the call log *)

(** The packets handed to [q.sendPacket], oldest first. *)
Definition packetsTo (q : Ref) (cs : list Call) : list Packet :=
  flat_map (fun c => match c with
                     | CSendPacket p packet => if decide (p = q) then [packet] else []
                     | _ => []
                     end) cs.

(** How many times [world.destroyBody] was called on a body. *)
Definition destroyedTimes (b : Ref) (cs : list Call) : nat :=
  length (filter (fun c => match c with CDestroyBody b' => bool_decide (b' = b) | _ => false end = true) cs).

(** The damage calls, with their targets and amounts, oldest first. *)
Definition damageCalls (cs : list Call) : list (Ref * Q * Ref) :=
  flat_map (fun c => match c with CDamage t a s => [(t, a, s)] | _ => [] end) cs.

(** ** Notions the statements use *)

Section Notions.

Variable E : Env.

(** A step that sends no packet and keeps the connection data of every
    player. *)
Definition quiet (g g' : Game) : Prop :=
  (forall q, packetsTo q (calls g') = packetsTo q (calls g))
  /\ (forall x, conn (playerAt (heap g') x) = conn (playerAt (heap g) x)).

(** All four join messages in one buffer handed to [p.sendData]. *)
Definition joinedInOneBuffer (p : Ref) (cs : list Call) : Prop :=
  exists stream, CSendData p stream ∈ cs
    /\ JoinedPacket p ∈ stream /\ MapPacket p ∈ stream
    /\ UpdatePacket p ∈ stream /\ AliveCountsPacket ∈ stream.

(** The calls one damage record makes when it is applied in [g]. *)
Definition recordCalls (g : Game) (r : DamageRecord) : list Call :=
  match heap g !! damaged r with
  | Some (OLoot _) => []
  | _ => [CDamage (damaged r) (damage (Bullets E (bulletTypeString (getBullet g (bullet r)))))
                  (damager r)]
  end
  ++ [CDestroyBody (bulletBody (getBullet g (bullet r)))].

(** A step that keeps [newObjects], the class of every reference and the
    animation state of every player. *)
Definition steady (g g' : Game) : Prop :=
  newObjects g' = newObjects g
  /\ (forall x, isPlayerAt (heap g') x = isPlayerAt (heap g) x)
  /\ (forall x, anim (playerAt (heap g') x) = anim (playerAt (heap g) x)).


(** An object the punch of [p] reaches: it passes the guard of line 291,
    it is measured, and the test says it collides. *)
Definition meleeHit (g : Game) (p : Ref) (pos : Vec2) (rad : Q) (o : Ref)
    (record : CollisionRecord) : Prop :=
  meleeCandidate g p o = true
  /\ meleeRecord E g o pos rad = Some record
  /\ collided record = true.

(** Further runs of the body of the first loop for [p]: between two
    runs anything may happen that leaves [p] a player with the animation
    state the previous run left. *)
Inductive laterRuns (p : Ref) : nat -> Game -> Game -> Prop :=
| laterRuns_O (g : Game) : laterRuns p 0 g g
| laterRuns_S (n : nat) (g h h' g' : Game) :
    laterRuns p n g h ->
    isPlayerAt (heap h') p = true ->
    anim (getPlayer h' p) = anim (getPlayer h p) ->
    playerLogic E p h' = Some g' ->
    laterRuns p (S n) g g'.

End Notions.

(** * Properties *)

Local Open Scope list_scope.

(** ** What the store operations leave alone *)

Lemma getPlayer_lookup (g : Game) (r : Ref) (pl : Player) :
  heap g !! r = Some (OPlayer pl) -> getPlayer g r = pl.
Proof. unfold getPlayer, playerAt. intros ->. reflexivity. Qed.

Lemma getLoot_lookup (g : Game) (r : Ref) (l : Loot) :
  heap g !! r = Some (OLoot l) -> getLoot g r = l.
Proof. unfold getLoot, lootAt. intros ->. reflexivity. Qed.

Lemma getBullet_lookup (g : Game) (r : Ref) (b : Bullet) :
  heap g !! r = Some (OBullet b) -> getBullet g r = b.
Proof. unfold getBullet, bulletAt. intros ->. reflexivity. Qed.

Lemma isPlayerAt_lookup (h : gmap Ref Obj) (r : Ref) (pl : Player) :
  h !! r = Some (OPlayer pl) -> isPlayerAt h r = true.
Proof. unfold isPlayerAt. intros ->. reflexivity. Qed.

Lemma isLootAt_lookup (h : gmap Ref Obj) (r : Ref) (l : Loot) :
  h !! r = Some (OLoot l) -> isLootAt h r = true.
Proof. unfold isLootAt. intros ->. reflexivity. Qed.

Lemma isPlayerAt_true (h : gmap Ref Obj) (r : Ref) :
  isPlayerAt h r = true -> h !! r = Some (OPlayer (playerAt h r)).
Proof. unfold isPlayerAt, playerAt. destruct (h !! r) as [[]|]; congruence. Qed.

Lemma isLootAt_true (h : gmap Ref Obj) (r : Ref) :
  isLootAt h r = true -> h !! r = Some (OLoot (lootAt h r)).
Proof. unfold isLootAt, lootAt. destruct (h !! r) as [[]|]; congruence. Qed.

Lemma heap_updPlayer (r : Ref) (f : Player -> Player) (g : Game) :
  heap (updPlayer r f g) =
  match heap g !! r with
  | Some (OPlayer pl) => <[r := OPlayer (f pl)]> (heap g)
  | _ => heap g
  end.
Proof. unfold updPlayer. destruct (heap g !! r) as [[]|]; reflexivity. Qed.

Lemma heap_updLoot (r : Ref) (f : Loot -> Loot) (g : Game) :
  heap (updLoot r f g) =
  match heap g !! r with
  | Some (OLoot l) => <[r := OLoot (f l)]> (heap g)
  | _ => heap g
  end.
Proof. unfold updLoot. destruct (heap g !! r) as [[]|]; reflexivity. Qed.

(** Every reader of the store, after a write through a reference [r], at
    a reference [x]: the proof looks at what [r] points to and at whether
    [x] is [r]. *)
Ltac store_write r x g :=
  let Hr := fresh "Hr" in
  rewrite ?heap_updPlayer, ?heap_updLoot;
  unfold playerAt, lootAt, bulletAt, isPlayerAt, isLootAt;
  destruct (heap g !! r) as [[]|] eqn:Hr; try reflexivity;
  destruct (decide (r = x)) as [->|?];
  [ rewrite lookup_insert_eq, ?Hr; try reflexivity; try congruence
  | rewrite lookup_insert_ne by assumption; reflexivity ].

Lemma isPlayerAt_updPlayer (r : Ref) (f : Player -> Player) (g : Game) (x : Ref) :
  isPlayerAt (heap (updPlayer r f g)) x = isPlayerAt (heap g) x.
Proof. store_write r x g. Qed.
Lemma isLootAt_updPlayer (r : Ref) (f : Player -> Player) (g : Game) (x : Ref) :
  isLootAt (heap (updPlayer r f g)) x = isLootAt (heap g) x.
Proof. store_write r x g. Qed.
Lemma lootAt_updPlayer (r : Ref) (f : Player -> Player) (g : Game) (x : Ref) :
  lootAt (heap (updPlayer r f g)) x = lootAt (heap g) x.
Proof. store_write r x g. Qed.
Lemma bulletAt_updPlayer (r : Ref) (f : Player -> Player) (g : Game) (x : Ref) :
  bulletAt (heap (updPlayer r f g)) x = bulletAt (heap g) x.
Proof. store_write r x g. Qed.
Lemma isPlayerAt_updLoot (r : Ref) (f : Loot -> Loot) (g : Game) (x : Ref) :
  isPlayerAt (heap (updLoot r f g)) x = isPlayerAt (heap g) x.
Proof. store_write r x g. Qed.
Lemma isLootAt_updLoot (r : Ref) (f : Loot -> Loot) (g : Game) (x : Ref) :
  isLootAt (heap (updLoot r f g)) x = isLootAt (heap g) x.
Proof. store_write r x g. Qed.
Lemma playerAt_updLoot (r : Ref) (f : Loot -> Loot) (g : Game) (x : Ref) :
  playerAt (heap (updLoot r f g)) x = playerAt (heap g) x.
Proof. store_write r x g. Qed.
Lemma bulletAt_updLoot (r : Ref) (f : Loot -> Loot) (g : Game) (x : Ref) :
  bulletAt (heap (updLoot r f g)) x = bulletAt (heap g) x.
Proof. store_write r x g. Qed.

Lemma playerAt_updPlayer_eq (r : Ref) (f : Player -> Player) (g : Game) :
  isPlayerAt (heap g) r = true ->
  playerAt (heap (updPlayer r f g)) r = f (playerAt (heap g) r).
Proof.
  intros H. apply isPlayerAt_true in H. rewrite heap_updPlayer, H.
  unfold playerAt at 1. by rewrite lookup_insert_eq.
Qed.

Lemma playerAt_updPlayer_ne (r : Ref) (f : Player -> Player) (g : Game) (x : Ref) :
  r <> x -> playerAt (heap (updPlayer r f g)) x = playerAt (heap g) x.
Proof. intros H. store_write r x g. Qed.

Lemma lootAt_updLoot_eq (r : Ref) (f : Loot -> Loot) (g : Game) :
  isLootAt (heap g) r = true ->
  lootAt (heap (updLoot r f g)) r = f (lootAt (heap g) r).
Proof.
  intros H. apply isLootAt_true in H. rewrite heap_updLoot, H.
  unfold lootAt at 1. by rewrite lookup_insert_eq.
Qed.

Lemma lootAt_updLoot_ne (r : Ref) (f : Loot -> Loot) (g : Game) (x : Ref) :
  r <> x -> lootAt (heap (updLoot r f g)) x = lootAt (heap g) x.
Proof. intros H. store_write r x g. Qed.

(** A write that keeps a part of the player keeps it for every reader. *)
Lemma playerAt_updPlayer_part {A : Type} (part : Player -> A)
    (r : Ref) (f : Player -> Player) (g : Game) (x : Ref) :
  (forall y, part (f y) = part y) ->
  part (playerAt (heap (updPlayer r f g)) x) = part (playerAt (heap g) x).
Proof.
  intros H. destruct (decide (r = x)) as [->|Hne].
  - destruct (isPlayerAt (heap g) x) eqn:Hx.
    + by rewrite playerAt_updPlayer_eq.
    + rewrite heap_updPlayer. unfold isPlayerAt in Hx.
      destruct (heap g !! x) as [[]|]; congruence.
  - by rewrite playerAt_updPlayer_ne.
Qed.

Lemma lootAt_updLoot_part {A : Type} (part : Loot -> A)
    (r : Ref) (f : Loot -> Loot) (g : Game) (x : Ref) :
  (forall y, part (f y) = part y) ->
  part (lootAt (heap (updLoot r f g)) x) = part (lootAt (heap g) x).
Proof.
  intros H. destruct (decide (r = x)) as [->|Hne].
  - destruct (isLootAt (heap g) x) eqn:Hx.
    + by rewrite lootAt_updLoot_eq.
    + rewrite heap_updLoot. unfold isLootAt in Hx.
      destruct (heap g !! x) as [[]|]; congruence.
  - by rewrite lootAt_updLoot_ne.
Qed.

Ltac store_frame :=
  intros;
  repeat match goal with
         | |- context [updPlayer ?r ?f ?g] => unfold updPlayer; destruct (heap g !! r) as [[]|]
         | |- context [updLoot ?r ?f ?g] => unfold updLoot; destruct (heap g !! r) as [[]|]
         | |- context [destroyBody ?b ?g] => unfold destroyBody; destruct b
         end;
  reflexivity.

Lemma updPlayer_registry (r : Ref) (f : Player -> Player) (g : Game) :
  registry (updPlayer r f g) = registry g.
Proof. store_frame. Qed.
Lemma updPlayer_gameDirty (r : Ref) (f : Player -> Player) (g : Game) :
  gameDirty (updPlayer r f g) = gameDirty g.
Proof. store_frame. Qed.
Lemma updPlayer_ephemeral (r : Ref) (f : Player -> Player) (g : Game) :
  ephemeral (updPlayer r f g) = ephemeral g.
Proof. store_frame. Qed.
Lemma updPlayer_session (r : Ref) (f : Player -> Player) (g : Game) :
  session (updPlayer r f g) = session g.
Proof. store_frame. Qed.
Lemma updPlayer_world (r : Ref) (f : Player -> Player) (g : Game) :
  world (updPlayer r f g) = world g.
Proof. store_frame. Qed.
Lemma updPlayer_calls (r : Ref) (f : Player -> Player) (g : Game) :
  calls (updPlayer r f g) = calls g.
Proof. store_frame. Qed.
Lemma updPlayer_clockReads (r : Ref) (f : Player -> Player) (g : Game) :
  clockReads (updPlayer r f g) = clockReads g.
Proof. store_frame. Qed.
Lemma updPlayer_randomReads (r : Ref) (f : Player -> Player) (g : Game) :
  randomReads (updPlayer r f g) = randomReads g.
Proof. store_frame. Qed.

Lemma updLoot_registry (r : Ref) (f : Loot -> Loot) (g : Game) :
  registry (updLoot r f g) = registry g.
Proof. store_frame. Qed.
Lemma updLoot_gameDirty (r : Ref) (f : Loot -> Loot) (g : Game) :
  gameDirty (updLoot r f g) = gameDirty g.
Proof. store_frame. Qed.
Lemma updLoot_ephemeral (r : Ref) (f : Loot -> Loot) (g : Game) :
  ephemeral (updLoot r f g) = ephemeral g.
Proof. store_frame. Qed.
Lemma updLoot_session (r : Ref) (f : Loot -> Loot) (g : Game) :
  session (updLoot r f g) = session g.
Proof. store_frame. Qed.
Lemma updLoot_world (r : Ref) (f : Loot -> Loot) (g : Game) :
  world (updLoot r f g) = world g.
Proof. store_frame. Qed.
Lemma updLoot_calls (r : Ref) (f : Loot -> Loot) (g : Game) :
  calls (updLoot r f g) = calls g.
Proof. store_frame. Qed.
Lemma updLoot_clockReads (r : Ref) (f : Loot -> Loot) (g : Game) :
  clockReads (updLoot r f g) = clockReads g.
Proof. store_frame. Qed.
Lemma updLoot_randomReads (r : Ref) (f : Loot -> Loot) (g : Game) :
  randomReads (updLoot r f g) = randomReads g.
Proof. store_frame. Qed.

Lemma destroyBody_registry (b : option Ref) (g : Game) :
  registry (destroyBody b g) = registry g.
Proof. store_frame. Qed.
Lemma destroyBody_gameDirty (b : option Ref) (g : Game) :
  gameDirty (destroyBody b g) = gameDirty g.
Proof. store_frame. Qed.
Lemma destroyBody_ephemeral (b : option Ref) (g : Game) :
  ephemeral (destroyBody b g) = ephemeral g.
Proof. store_frame. Qed.
Lemma destroyBody_session (b : option Ref) (g : Game) :
  session (destroyBody b g) = session g.
Proof. store_frame. Qed.
Lemma destroyBody_heap (b : option Ref) (g : Game) : heap (destroyBody b g) = heap g.
Proof. store_frame. Qed.
Lemma destroyBody_clockReads (b : option Ref) (g : Game) :
  clockReads (destroyBody b g) = clockReads g.
Proof. store_frame. Qed.
Lemma destroyBody_randomReads (b : option Ref) (g : Game) :
  randomReads (destroyBody b g) = randomReads g.
Proof. store_frame. Qed.
Lemma destroyBody_world (b : option Ref) (g : Game) :
  world (destroyBody b g) =
  match b with Some b => alter markDestroyed b (world g) | None => world g end.
Proof. destruct b; reflexivity. Qed.
Lemma destroyBody_calls (b : option Ref) (g : Game) :
  calls (destroyBody b g) = calls g ++ match b with Some b => [CDestroyBody b] | None => [] end.
Proof. destruct b; simpl; [reflexivity | by rewrite app_nil_r]. Qed.

Create Rewrite HintDb store.

Global Hint Rewrite
  updPlayer_registry updPlayer_gameDirty updPlayer_ephemeral updPlayer_session
  updPlayer_world updPlayer_calls updPlayer_clockReads updPlayer_randomReads
  updLoot_registry updLoot_gameDirty updLoot_ephemeral updLoot_session
  updLoot_world updLoot_calls updLoot_clockReads updLoot_randomReads
  destroyBody_registry destroyBody_gameDirty destroyBody_ephemeral destroyBody_session
  destroyBody_heap destroyBody_clockReads destroyBody_randomReads destroyBody_calls
  destroyBody_world
  isPlayerAt_updPlayer isLootAt_updPlayer lootAt_updPlayer bulletAt_updPlayer
  isPlayerAt_updLoot isLootAt_updLoot playerAt_updLoot bulletAt_updLoot
  : store.

Arguments updPlayer : simpl never.
Arguments updLoot : simpl never.
Arguments destroyBody : simpl never.
Arguments playerAt : simpl never.
Arguments lootAt : simpl never.
Arguments bulletAt : simpl never.
Arguments isPlayerAt : simpl never.
Arguments isLootAt : simpl never.

(** Projections through the pure record updates compute; the writes to
    the store are rewritten. *)
Ltac store_norm :=
  unfold getPlayer, getLoot, getBullet, call, pushObjects, pushLoot, drawRandom in *;
  repeat (progress (cbn [heap world calls clockReads randomReads
                         machine registry gameDirty ephemeral session
                         objects loot players connectedPlayers activePlayers bullets
                         _nextObjectId _nextGroupId
                         partialDirtyObjects fullDirtyObjects deletedObjects emotes explosions
                         newObjects newPlayers deletedPlayers dirtyBullets kills
                         roleAnnouncements damageRecords
                         upd_machine upd_registry upd_gameDirty upd_ephemeral upd_session
                         set_heap set_world set_calls set_clockReads set_randomReads
                         set_objects set_nextObjectId set_loot set_players
                         set_connectedPlayers set_activePlayers set_bullets
                         set_partialDirtyObjects set_fullDirtyObjects set_deletedObjects
                         set_emotes set_explosions pushFull pushPartial pushDeleted
                         set_newPlayers set_deletedPlayers set_dirtyBullets set_kills
                         set_roleAnnouncements set_damageRecords
                         fst snd]
           || autorewrite with store)).

Lemma removeFrom_not_elem (l : list Ref) (x : Ref) : NoDup l -> x ∉ removeFrom l x.
Proof.
  induction 1 as [|y l Hy Hl IH]; simpl.
  - apply not_elem_of_nil.
  - destruct (decide (y = x)) as [->|Hne]; [assumption|].
    rewrite elem_of_cons. intros [Heq|Hin]; [congruence | contradiction].
Qed.

Lemma removeFrom_elem_ne (l : list Ref) (x y : Ref) :
  y <> x -> y ∈ removeFrom l x <-> y ∈ l.
Proof.
  intros Hne. induction l as [|z l IH]; simpl; [reflexivity|].
  destruct (decide (z = x)) as [->|Hzx].
  - rewrite elem_of_cons. split; [auto | intros [Heq|Hin]; [congruence | assumption]].
  - rewrite !elem_of_cons, IH. reflexivity.
Qed.

Lemma removeFrom_absent (l : list Ref) (x : Ref) : x ∉ l -> removeFrom l x = l.
Proof.
  induction l as [|y l IH]; simpl; [reflexivity|].
  rewrite not_elem_of_cons. intros [Hne Hin].
  destruct (decide (y = x)); [congruence|]. by rewrite IH.
Qed.

(** Reads after writes, when the classes of the references are known. *)
Ltac store_read :=
  repeat first
    [ progress store_norm
    | rewrite playerAt_updPlayer_eq by (store_norm; assumption)
    | rewrite lootAt_updLoot_eq by (store_norm; assumption)
    | rewrite playerAt_updPlayer_ne by congruence
    | rewrite lootAt_updLoot_ne by congruence ].

(** ** Loot pickup *)

Section Properties.

Variable E : Env.

(** The dispatch on a stack of consumables. *)
Lemma interactDispatch_stack (this p : Ref) (g : Game) (l : Loot) (pl : Player)
    (sizes : list Z) (C c a : Z) :
  heap g !! this = Some (OLoot l) ->
  heap g !! p = Some (OPlayer pl) ->
  endsWith (typeString l) "scope" = false ->
  startsWith (typeString l) "backpack" = false ->
  startsWith (typeString l) "chest" = false ->
  startsWith (typeString l) "helmet" = false ->
  bagSizes E (typeString l) = Some sizes ->
  arrayGet sizes (backpackLevel pl) = Int C ->
  inventory pl !! typeString l = Some (Int c) ->
  count l = Int a ->
  interactDispatch E this p g =
  if c + a <=? C then
    (Success, true, false, updPlayer p (upd_gear (inventorySet (typeString l) (Int (c + a)))) g)
  else if C <? c + 1 then (Full, true, false, g)
  else if C <? c + a then
    (Success, false, false,
     upd_gameDirty (pushFull this)
       (updLoot this (set_count (Int (c + a - C)))
          (updPlayer p (upd_gear (inventorySet (typeString l) (Int C))) g)))
  else (Success, true, false, g).
Proof.
  intros Hl Hp Hscope Hback Hchest Hhelm Hbag Hcap Hinv Hcount.
  unfold interactDispatch.
  rewrite (getLoot_lookup _ _ _ Hl), (getPlayer_lookup _ _ _ Hp).
  rewrite Hscope, Hback, Hchest, Hhelm, Hbag.
  unfold inventoryGet. rewrite Hinv, Hcap, Hcount. reflexivity.
Qed.


(** C1. A pickup of a stack of [a] consumables by a player who holds [c]
    of them and can carry [C] at the current backpack level: when
    [c + a <= C] the player holds [c + a], the result is Success, and the
    loot leaves the registry, the loot list and the physics world and
    enters [deletedObjects]; when [C <= c] (the stack holding at least
    one item) the result is Full and neither the inventory nor the count
    of the loot changes: the game is as before, but for the packet to a
    player who is not on mobile; when [c < C < c + a] the player holds
    [C], the loot keeps [c + a - C], is pushed into [fullDirtyObjects]
    and stays registered, and the result is Success. *)
Theorem interact_stack_pickup (this p : Ref) (g : Game) (l : Loot) (pl : Player)
    (sizes : list Z) (C c a : Z) :
  heap g !! this = Some (OLoot l) ->
  heap g !! p = Some (OPlayer pl) ->
  endsWith (typeString l) "scope" = false ->
  startsWith (typeString l) "backpack" = false ->
  startsWith (typeString l) "chest" = false ->
  startsWith (typeString l) "helmet" = false ->
  bagSizes E (typeString l) = Some sizes ->
  arrayGet sizes (backpackLevel pl) = Int C ->
  inventory pl !! typeString l = Some (Int c) ->
  count l = Int a ->
  let result := fst (interact E this p g) in
  let g' := snd (interact E this p g) in
  (c + a <= C ->
     result = Success
     /\ inventory (getPlayer g' p) !! typeString l = Some (Int (c + a))
     /\ objects g' = removeFrom (objects g) this
     /\ loot g' = removeFrom (loot g) this
     /\ (NoDup (objects g) -> this ∉ objects g')
     /\ (NoDup (loot g) -> this ∉ loot g')
     /\ deletedObjects g' = deletedObjects g ++ [this]
     /\ (forall b, body l = Some b ->
           CDestroyBody b ∈ calls g'
           /\ world g' = alter markDestroyed b (world g)))
  /\ (0 < a -> C <= c ->
     result = Full
     /\ getPlayer g' p = pl
     /\ getLoot g' this = l
     /\ g' = (if isMobile pl then g
              else call (CSendPacket p (PickupPacket (typeString l) (Int a) Full)) g))
  /\ (c < C < c + a ->
     result = Success
     /\ inventory (getPlayer g' p) !! typeString l = Some (Int C)
     /\ count (getLoot g' this) = Int (c + a - C)
     /\ fullDirtyObjects g' = fullDirtyObjects g ++ [this]
     /\ objects g' = objects g
     /\ loot g' = loot g
     /\ deletedObjects g' = deletedObjects g
     /\ world g' = world g).
Proof.
  intros Hl Hp Hscope Hback Hchest Hhelm Hbag Hcap Hinv Hcount result g'.
  assert (Hne : p <> this) by (intros ->; congruence).
  pose proof (isPlayerAt_lookup _ _ _ Hp) as Hp'.
  pose proof (isLootAt_lookup _ _ _ Hl) as Hl'.
  pose proof (getPlayer_lookup _ _ _ Hp) as Hpl.
  pose proof (getLoot_lookup _ _ _ Hl) as Hlo.
  subst result g'. unfold interact.
  rewrite (interactDispatch_stack this p g l pl sizes C c a) by assumption.
  split; [|split].
  - intros Hle. replace (c + a <=? C) with true by lia.
    cbn [fst snd]. unfold interactFinish.
    rewrite bool_decide_eq_true_2 by reflexivity.
    rewrite (bool_decide_eq_false_2 (Success <> Success)) by (intros H; apply H; reflexivity).
    rewrite andb_false_r. cbn [negb].
    store_read. rewrite ?Hlo, ?Hpl.
    repeat split; try reflexivity.
    + cbn. apply lookup_insert_eq.
    + apply removeFrom_not_elem.
    + apply removeFrom_not_elem.
    + rewrite H. set_solver.
    + rewrite H. reflexivity.
  - intros Ha Hle. replace (c + a <=? C) with false by lia.
    replace (C <? c + 1) with true by lia.
    cbn [fst snd]. unfold interactFinish.
    rewrite (bool_decide_eq_false_2 (Full = Success)) by discriminate.
    rewrite (bool_decide_eq_true_2 (Full <> Success)) by discriminate.
    rewrite andb_true_r, Hpl, Hlo, Hcount.
    destruct (isMobile pl); cbn [negb]; store_read; repeat split; assumption.
  - intros Hlt. replace (c + a <=? C) with false by lia.
    replace (C <? c + 1) with false by lia.
    replace (C <? c + a) with true by lia.
    cbn [fst snd]. unfold interactFinish.
    rewrite bool_decide_eq_true_2 by reflexivity.
    rewrite (bool_decide_eq_false_2 (Success <> Success)) by (intros H; apply H; reflexivity).
    rewrite andb_false_r. cbn [negb].
    store_read. rewrite ?Hlo, ?Hpl.
    repeat split; try reflexivity.
    cbn. apply lookup_insert_eq.
Qed.
(** A new loot: where it is stored and what the game looks like after. *)
Lemma newLoot_spec (ts : string) (pos : Vec2) (lay : Z) (cnt : num) (g : Game) :
  let r := fresh (dom (heap g)) in
  let b := fresh (dom (world g)) in
  let l := MkLoot (MkGameObject (_nextObjectId g + 1) ts (TypeToId E ts) lay KLoot (Some b)
                                false false true) cnt 1 pos in
  let g' := snd (newLoot E ts pos lay cnt false g) in
  fst (newLoot E ts pos lay cnt false g) = r
  /\ heap g !! r = None
  /\ world g !! b = None
  /\ heap g' = <[r := OLoot l]> (heap g)
  /\ world g' = <[b := MkBody pos zeroVec false (Some r)]> (world g)
  /\ registry g' = set_loot (loot g ++ [r]) (set_nextObjectId (_nextObjectId g + 1) (registry g))
  /\ gameDirty g' = gameDirty g
  /\ ephemeral g' = ephemeral g
  /\ session g' = session g
  /\ calls g' = calls g.
Proof.
  cbn. repeat split.
  - apply not_elem_of_dom, is_fresh.
  - apply not_elem_of_dom, is_fresh.
Qed.

(** C2. A pickup of a tiered item (backpack, chest, helmet) whose last
    digit is the tier [newTier], by a player whose tier of that type is
    [oldTier]: a lower tier gives BetterItemEquipped and an equal tier
    AlreadyEquipped, the game being left as it is; a higher tier gives
    Success and becomes the tier of the player, and a new loot of count 1
    named after the displaced tier is created at the position and on the
    layer of the picked one, registered and marked fully dirty, exactly
    when the displaced tier is not zero. *)
Theorem pickUpTieredItem_tiers (this p : Ref) (type : string) (g : Game) (l : Loot)
    (pl : Player) (newTier oldTier : Z) :
  heap g !! this = Some (OLoot l) ->
  heap g !! p = Some (OPlayer pl) ->
  type ∈ ["backpack"; "chest"; "helmet"] ->
  parseIntChar (lastChar (typeString l)) = Int newTier ->
  getLevel type pl = Int oldTier ->
  let result := fst (pickUpTieredItem E this type p g) in
  let g' := snd (pickUpTieredItem E this type p g) in
  (newTier < oldTier -> result = BetterItemEquipped /\ g' = g)
  /\ (newTier = oldTier -> result = AlreadyEquipped /\ g' = g)
  /\ (oldTier < newTier ->
        result = Success
        /\ getLevel type (getPlayer g' p) = Int newTier
        /\ (oldTier = 0 ->
              g' = updPlayer p (upd_gear (setLevel type (Int newTier))) g)
        /\ (oldTier <> 0 ->
              exists oldItem lo,
                heap g !! oldItem = None
                /\ heap g' !! oldItem = Some (OLoot lo)
                /\ typeString lo = (type ++ "0" ++ pretty oldTier)%string
                /\ (1 <= oldTier <= 9 -> parseIntChar (lastChar (typeString lo)) = Int oldTier)
                /\ count lo = Int 1
                /\ layer lo = layer l
                /\ lootPosition g' oldItem = lootPosition g this
                /\ objects g' = objects g ++ [oldItem]
                /\ loot g' = loot g ++ [oldItem]
                /\ fullDirtyObjects g' = fullDirtyObjects g ++ [oldItem])).
Proof.
  intros Hl Hp Htype Hnew Hold result g'.
  pose proof (isPlayerAt_lookup _ _ _ Hp) as Hp'.
  pose proof (getPlayer_lookup _ _ _ Hp) as Hpl.
  pose proof (getLoot_lookup _ _ _ Hl) as Hlo.
  subst result g'. unfold pickUpTieredItem.
  rewrite Hpl, Hlo, Hnew, Hold. cbn [num_ltb num_eqb num_neb].
  split; [|split].
  - intros Hlt. replace (newTier <? oldTier) with true by lia. split; reflexivity.
  - intros Heq. replace (newTier <? oldTier) with false by lia.
    replace (newTier =? oldTier) with true by lia. split; reflexivity.
  - intros Hlt. replace (newTier <? oldTier) with false by lia.
    replace (newTier =? oldTier) with false by lia.
    set (g1 := updPlayer p (upd_gear (setLevel type (Int newTier))) g).
    assert (Hlevel : getLevel type (playerAt (heap g1) p) = Int newTier).
    { subst g1. rewrite playerAt_updPlayer_eq by assumption.
      repeat (apply elem_of_cons in Htype as [->|Htype]; [reflexivity|]).
      by apply elem_of_nil in Htype. }
    destruct (decide (oldTier = 0)) as [->|Hnz].
    + cbn. repeat split; try assumption; try reflexivity. intros H; congruence.
    + unfold num_neb. cbn [num_eqb].
      replace (oldTier =? 0) with false by lia. cbn [negb].
      destruct (newLoot_spec (type ++ "0" ++ num_toString (Int oldTier))
                  (lootPosition g1 this) (layer (getLoot g1 this)) (Int 1) g1)
        as (Hr & Hfresh & Hbfresh & Hheap & Hworld & Hreg & Hdirty & Heph & Hses & Hcalls).
      destruct (newLoot E _ _ _ _ false g1) as [oldItem g2] eqn:Hnl.
      cbn [fst snd] in *. subst oldItem.
      set (r := fresh (dom (heap g1))) in *.
      assert (Hg1p : heap g1 !! p = Some (OPlayer (upd_gear (setLevel type (Int newTier)) pl)))
        by (subst g1; rewrite heap_updPlayer, Hp; apply lookup_insert_eq).
      assert (Hrp : r <> p) by (intros Heq; rewrite Heq in Hfresh; congruence).
      assert (Hg1this : lootAt (heap g1) this = l)
        by (subst g1; rewrite lootAt_updPlayer; exact Hlo).
      assert (Hg1w : world g1 = world g) by (subst g1; apply updPlayer_world).
      assert (Hg1r : registry g1 = registry g) by (subst g1; apply updPlayer_registry).
      assert (Hg1d : gameDirty g1 = gameDirty g) by (subst g1; apply updPlayer_gameDirty).
      split; [reflexivity|]. split; [|split].
      * unfold getPlayer, pushObjects. cbn [heap machine upd_gameDirty upd_registry].
        rewrite Hheap. unfold playerAt. rewrite lookup_insert_ne by assumption.
        exact Hlevel.
      * intros H; contradiction.
      * intros _. eexists r, _.
        unfold pushObjects. cbn [heap machine upd_gameDirty upd_registry].
        rewrite Hheap, lookup_insert_eq.
        split.
        { subst g1. rewrite heap_updPlayer, Hp in Hfresh.
          rewrite lookup_insert_ne in Hfresh by congruence. exact Hfresh. }
        split; [reflexivity|].
        split; [reflexivity|].
        split.
        { intros Hrange. cbn [typeString lootObject].
          assert (Hcases : oldTier = 1 \/ oldTier = 2 \/ oldTier = 3 \/ oldTier = 4
                           \/ oldTier = 5 \/ oldTier = 6 \/ oldTier = 7 \/ oldTier = 8
                           \/ oldTier = 9) by lia.
          repeat (apply elem_of_cons in Htype as [->|Htype];
                  [ repeat (destruct Hcases as [->|Hcases]; [vm_compute; reflexivity|]);
                    subst; vm_compute; reflexivity |]).
          by apply elem_of_nil in Htype. }
        split; [reflexivity|].
        split; [cbn; unfold getLoot; by rewrite Hg1this|].
        split.
        { unfold lootPosition, getLoot, getPosition.
          cbn [heap world machine upd_gameDirty upd_registry].
          rewrite Hheap, Hworld. unfold lootAt at 1. rewrite lookup_insert_eq.
          cbn [body lootObject]. rewrite lookup_insert_eq. cbn [bodyPosition].
          unfold lootPosition, getLoot, getPosition.
          rewrite Hg1this, Hg1w. unfold getLoot in Hlo. rewrite Hlo. reflexivity. }
        cbn [objects loot registry fullDirtyObjects gameDirty upd_gameDirty upd_registry
             set_objects pushFull set_fullDirtyObjects].
        rewrite Hreg, Hdirty, Hg1r, Hg1d. repeat split; reflexivity.
Qed.

(** *** The pickup packet *)

Lemma packetsTo_app (q : Ref) (cs cs' : list Call) :
  packetsTo q (cs ++ cs') = packetsTo q cs ++ packetsTo q cs'.
Proof. apply flat_map_app. Qed.

Lemma quiet_refl (g : Game) : quiet g g.
Proof. split; reflexivity. Qed.

Lemma quiet_updPlayer_gear (g g1 : Game) (r : Ref) (h : Gear -> Gear) :
  quiet g g1 -> quiet g (updPlayer r (upd_gear h) g1).
Proof.
  intros [Hc Hp]. split; intros; store_norm; [apply Hc|].
  rewrite (playerAt_updPlayer_part conn) by reflexivity. apply Hp.
Qed.

Lemma quiet_updLoot (g g1 : Game) (r : Ref) (h : Loot -> Loot) :
  quiet g g1 -> quiet g (updLoot r h g1).
Proof. intros [Hc Hp]. split; intros; store_norm; [apply Hc | apply Hp]. Qed.

Lemma quiet_upd_gameDirty (g g1 : Game) (h : Dirty -> Dirty) :
  quiet g g1 -> quiet g (upd_gameDirty h g1).
Proof. intros [Hc Hp]. split; intros; [apply Hc | apply Hp]. Qed.

Lemma quiet_pushObjects (g g1 : Game) (r : Ref) :
  quiet g g1 -> quiet g (pushObjects r g1).
Proof. intros [Hc Hp]. split; intros; [apply Hc | apply Hp]. Qed.

Lemma quiet_call (g g1 : Game) (c : Call) :
  (forall p packet, c <> CSendPacket p packet) ->
  quiet g g1 -> quiet g (call c g1).
Proof.
  intros Hne [Hc Hp]. split; intros; [|apply Hp].
  unfold call. cbn [calls machine upd_machine set_calls].
  rewrite packetsTo_app, Hc.
  destruct c; cbn; try apply app_nil_r. exfalso. by eapply Hne.
Qed.

Lemma quiet_newLoot (g g1 g2 : Game) (ts : string) (pos : Vec2) (lay : Z) (cnt : num) (r : Ref) :
  newLoot E ts pos lay cnt false g1 = (r, g2) ->
  quiet g g1 -> quiet g g2.
Proof.
  intros Hnl [Hc Hp].
  destruct (newLoot_spec ts pos lay cnt g1)
    as (_ & Hfresh & _ & Hheap & _ & _ & _ & _ & _ & Hcalls).
  rewrite Hnl in *. cbn [fst snd] in *.
  split; intros.
  - rewrite Hcalls. apply Hc.
  - rewrite Hheap, <- Hp. unfold playerAt.
    destruct (decide (fresh (dom (heap g1)) = x)) as [<-|Hne].
    + by rewrite lookup_insert_eq, Hfresh.
    + by rewrite lookup_insert_ne.
Qed.

Lemma pickUpTieredItem_quiet (this p : Ref) (type : string) (g : Game) :
  quiet g (snd (pickUpTieredItem E this type p g)).
Proof.
  unfold pickUpTieredItem. repeat case_match; cbn [snd];
    eauto using quiet_refl, quiet_updPlayer_gear, quiet_upd_gameDirty, quiet_pushObjects,
                quiet_newLoot.
Qed.

Lemma interactDispatch_quiet (this p : Ref) (g : Game) :
  quiet g (snd (interactDispatch E this p g)).
Proof.
  unfold interactDispatch.
  repeat match goal with
         | |- context [pickUpTieredItem E ?a ?b ?c ?d] =>
             let H := fresh in
             pose proof (pickUpTieredItem_quiet a c b d) as H; revert H;
             destruct (pickUpTieredItem E a b c d); cbn [snd]; intros H
         end.
  repeat case_match; simplify_eq; cbn [snd];
    repeat first
      [ assumption
      | apply quiet_refl
      | apply quiet_updPlayer_gear
      | apply quiet_updLoot
      | apply quiet_upd_gameDirty
      | apply quiet_call; [discriminate|] ].
Qed.

(** What the end of [interact] keeps of the loot and of the player. *)
Lemma interactFinish_keeps (this p : Ref) (result : PickupMsgType)
    (deleteItem playerDirty : bool) (g : Game) :
  let g' := interactFinish this p result deleteItem playerDirty g in
  typeString (getLoot g' this) = typeString (getLoot g this)
  /\ count (getLoot g' this) = count (getLoot g this)
  /\ conn (getPlayer g' p) = conn (getPlayer g p).
Proof.
  unfold interactFinish.
  repeat case_match; store_norm;
    repeat first
      [ rewrite (playerAt_updPlayer_part conn) by reflexivity
      | rewrite (lootAt_updLoot_part (fun l => typeString l)) by reflexivity
      | rewrite (lootAt_updLoot_part count) by reflexivity
      | progress store_norm ];
    repeat split; reflexivity.
Qed.

Lemma interactFinish_packets (this p : Ref) (result : PickupMsgType)
    (deleteItem playerDirty : bool) (g : Game) (q : Ref) :
  packetsTo q (calls (interactFinish this p result deleteItem playerDirty g)) =
  packetsTo q (calls g)
  ++ (if decide (p = q) then
        if isMobile (getPlayer g p) && bool_decide (result <> Success) then []
        else [PickupPacket (typeString (getLoot g this)) (count (getLoot g this)) result]
      else []).
Proof.
  unfold interactFinish.
  destruct (isMobile (getPlayer g p) && bool_decide (result <> Success)); cbn [negb];
    repeat case_match; store_norm; rewrite ?packetsTo_app; cbn [packetsTo flat_map];
    repeat case_match; simplify_eq; rewrite ?app_nil_r; try reflexivity.
Qed.

(** C10. What [Loot.interact] sends: to the player who picks up, nothing
    when that player is on mobile and the result is not Success, and
    otherwise one PickupPacket with the type of the loot, its count and
    the result; to any other player, nothing. *)
Theorem interact_pickup_packet (this p : Ref) (g : Game) :
  let result := fst (interact E this p g) in
  let g' := snd (interact E this p g) in
  forall q,
    packetsTo q (calls g') =
    packetsTo q (calls g)
    ++ (if decide (p = q) then
          if isMobile (getPlayer g p) && bool_decide (result <> Success) then []
          else [PickupPacket (typeString (getLoot g' this)) (count (getLoot g' this)) result]
        else []).
Proof.
  intros result g' q. subst result g'. unfold interact.
  pose proof (interactDispatch_quiet this p g) as [Hcalls Hconn].
  destruct (interactDispatch E this p g) as [[[result deleteItem] playerDirty] g1].
  cbn [fst snd] in *.
  destruct (interactFinish_keeps this p result deleteItem playerDirty g1) as (Hts & Hcnt & _).
  rewrite interactFinish_packets, Hcalls, Hts, Hcnt.
  unfold getPlayer. rewrite Hconn. reflexivity.
Qed.


(** ** The collision filter *)

(** To what [shouldCollide] answers, by what [this] is: nothing across
    layers; a player with obstacles and bullets; a bullet with players,
    obstacles and bullets, and never with loot; a loot with obstacles and
    loot; anything else, an obstacle among them, with nothing. *)
Lemma shouldCollide_matrix (thisObject thatObject : Obj) :
  (objLayer thisObject <> objLayer thatObject -> shouldCollide thisObject thatObject = false)
  /\ (objLayer thisObject = objLayer thatObject ->
      (kindIs thisObject KPlayer = true ->
         shouldCollide thisObject thatObject
         = kindIs thatObject KObstacle || objIsBullet thatObject)
      /\ (objIsBullet thisObject = true ->
            shouldCollide thisObject thatObject
            = kindIs thatObject KPlayer || kindIs thatObject KObstacle || objIsBullet thatObject)
      /\ (objIsBullet thisObject = true -> kindIs thatObject KLoot = true ->
            shouldCollide thisObject thatObject = false)
      /\ (kindIs thisObject KLoot = true ->
            shouldCollide thisObject thatObject
            = kindIs thatObject KObstacle || kindIs thatObject KLoot)
      /\ (kindIs thisObject KPlayer = false -> objIsBullet thisObject = false ->
          kindIs thisObject KLoot = false ->
            shouldCollide thisObject thatObject = false)).
Proof.
  unfold shouldCollide. split.
  - intros Hne. apply Z.eqb_neq in Hne. by rewrite Hne.
  - intros Heq. apply Z.eqb_eq in Heq. rewrite Heq. cbn [negb].
    repeat split.
    + by intros ->.
    + intros Hb. destruct thisObject; try discriminate. cbn.
      destruct thatObject as [q|o|l|b'|]; unfold kindIs; cbn; try reflexivity;
        [destruct (kind q) | destruct (kind o) | destruct (kind l)]; reflexivity.
    + intros Hb Hl. destruct thisObject; try discriminate. cbn. by rewrite Hl.
    + intros Hl. unfold kindIs in *.
      destruct thisObject as [q|o|l|b'|]; cbn in *; try discriminate;
        [destruct (kind q) | destruct (kind o) | destruct (kind l)]; try discriminate;
        reflexivity.
    + by intros -> -> ->.
Qed.

(** C9. The answer depends on which fixture of a pair is asked: a player
    asked about a wall of the arena on its layer collides with it, and
    the wall asked about the same player does not; the same holds for a
    bullet or a loot against the wall, since an obstacle collides with
    nothing when it is [this]. *)
Theorem shouldCollide_obstacle_side :
  let player := OPlayer (samplePlayer 0 false (Some 11%positive) []) in
  let stack := OLoot (sampleLoot 1 "bandage" 5 12%positive zeroVec) in
  let shot := OBullet (MkBullet 1%positive "bullet_mp5" 14%positive 0 zeroVec (MkVec2 1 0) 0) in
  shouldCollide player OBoundary = true /\ shouldCollide OBoundary player = false
  /\ shouldCollide shot OBoundary = true /\ shouldCollide OBoundary shot = false
  /\ shouldCollide stack OBoundary = true /\ shouldCollide OBoundary stack = false.
Proof. cbv zeta. repeat split; vm_compute; reflexivity. Qed.

(** ** Joining *)

Lemma foldl_updPlayer_calls {A : Type} (step : Game -> A -> Game) (l : list A) (g : Game) :
  (forall g x, calls (step g x) = calls g) ->
  calls (foldl step g l) = calls g.
Proof.
  intros H. revert g. induction l as [|x l IH]; intros g; cbn; [reflexivity|].
  by rewrite IH, H.
Qed.

(** C7, as stated, fails: on the sample game the joined acknowledgement
    is not in the buffer that holds the other three messages. *)
Lemma addPlayer_joined_apart :
  ~ joinedInOneBuffer (fst (addPlayer sampleEnv (lootGame false 0)))
      (calls (snd (addPlayer sampleEnv (lootGame false 0)))).
Proof.
  intros (stream & Hin & Hjoined & _).
  vm_compute in Hin.
  repeat (apply elem_of_cons in Hin as [Hin|Hin]; [try discriminate|]).
  - injection Hin as ->.
    repeat (apply elem_of_cons in Hjoined as [Hjoined|Hjoined]; [discriminate|]).
    by apply elem_of_nil in Hjoined.
  - by apply elem_of_nil in Hin.
Qed.

(** C7. What [addPlayer] sends to the player [p] it creates, in order:
    the joined acknowledgement, on its own, through [sendPacket]; then one
    buffer that holds the map, the full update and the alive counts, in
    this order, through [sendData]. Nothing else is sent, to anyone. *)
Theorem addPlayer_sends (g : Game) :
  let p := fst (addPlayer E g) in
  calls (snd (addPlayer E g)) =
  calls g ++ [CUpdateVisibleObjects p;
              CSendPacket p (JoinedPacket p);
              CSendData p [MapPacket p; UpdatePacket p; AliveCountsPacket]].
Proof.
  unfold addPlayer, nextObjectId, alloc, sendPacket.
  destruct (fixedSpawnLocation E) as [[x y]|]; cbn [fst snd];
    store_norm;
    rewrite foldl_updPlayer_calls by (intros; case_decide; store_norm; reflexivity);
    store_norm; rewrite <- !app_assoc; reflexivity.
Qed.


(** ** The second loop *)

Lemma foldl_frame {A B : Type} (obs : Game -> B) (step : Game -> A -> Game)
    (l : list A) (g : Game) :
  (forall g x, obs (step g x) = obs g) ->
  obs (foldl step g l) = obs g.
Proof.
  intros H. revert g. induction l as [|x l IH]; intros g; cbn; [reflexivity|].
  by rewrite IH, H.
Qed.

Lemma upd_playerDirty_id (pl : Player) : upd_playerDirty (fun d => d) pl = pl.
Proof. by destruct pl. Qed.

(** The loops of lines 388 to 390 and 395 to 397: pushing, one by one,
    the objects of [l] that the player sees appends those of [l] that the
    player sees. *)
Lemma pushVisible_loop (p : Ref) (push : Ref -> Dirty -> Dirty) (l : list Ref) (g : Game) :
  isPlayerAt (heap g) p = true ->
  playerAt (heap (foldl (fun g object =>
                           if includes (visibleObjects (getPlayer g p)) object
                           then updPlayer p (upd_playerDirty (push object)) g
                           else g) g l)) p
  = upd_playerDirty
      (fun d => foldl (fun d object => push object d) d
                  (filter (fun o => o ∈ visibleObjects (playerAt (heap g) p)) l))
      (playerAt (heap g) p).
Proof.
  revert g. induction l as [|x l IH]; intros g Hp; cbn [foldl].
  - cbn. by rewrite upd_playerDirty_id.
  - rewrite filter_cons. unfold includes at 2, getPlayer at 2.
    destruct (decide (x ∈ visibleObjects (playerAt (heap g) p))) as [Hx|Hx].
    + rewrite bool_decide_eq_true_2 by assumption.
      rewrite IH by (by rewrite isPlayerAt_updPlayer).
      rewrite playerAt_updPlayer_eq by assumption. reflexivity.
    + rewrite bool_decide_eq_false_2 by assumption. by apply IH.
Qed.

Lemma push_loop (p : Ref) (push : Ref -> Dirty -> Dirty) (l : list Ref) (g : Game) :
  isPlayerAt (heap g) p = true ->
  playerAt (heap (foldl (fun g object => updPlayer p (upd_playerDirty (push object)) g) g l)) p
  = upd_playerDirty (fun d => foldl (fun d object => push object d) d l) (playerAt (heap g) p).
Proof.
  revert g. induction l as [|x l IH]; intros g Hp; cbn [foldl].
  - by rewrite upd_playerDirty_id.
  - rewrite IH by (by rewrite isPlayerAt_updPlayer).
    rewrite playerAt_updPlayer_eq by assumption. reflexivity.
Qed.

Lemma foldl_pushFull (l : list Ref) (d : Dirty) :
  foldl (fun d object => pushFull object d) d l = set_fullDirtyObjects (fullDirtyObjects d ++ l) d.
Proof.
  revert d. induction l as [|x l IH]; intros d; cbn [foldl].
  - rewrite app_nil_r. by destruct d.
  - rewrite IH. unfold pushFull, set_fullDirtyObjects. cbn. by rewrite <- app_assoc.
Qed.

Lemma foldl_pushPartial (l : list Ref) (d : Dirty) :
  foldl (fun d object => pushPartial object d) d l
  = set_partialDirtyObjects (partialDirtyObjects d ++ l) d.
Proof.
  revert d. induction l as [|x l IH]; intros d; cbn [foldl].
  - rewrite app_nil_r. by destruct d.
  - rewrite IH. unfold pushPartial, set_partialDirtyObjects. cbn. by rewrite <- app_assoc.
Qed.

Lemma foldl_pushDeleted (l : list Ref) (d : Dirty) :
  foldl (fun d object => pushDeleted object d) d l
  = set_deletedObjects (deletedObjects d ++ l) d.
Proof.
  revert d. induction l as [|x l IH]; intros d; cbn [foldl].
  - rewrite app_nil_r. by destruct d.
  - rewrite IH. unfold pushDeleted, set_deletedObjects. cbn. by rewrite <- app_assoc.
Qed.

Lemma foldl_isPlayerAt {A : Type} (step : Game -> A -> Game) (l : list A) (g : Game) (x : Ref) :
  (forall g a, isPlayerAt (heap (step g a)) x = isPlayerAt (heap g) x) ->
  isPlayerAt (heap (foldl step g l)) x = isPlayerAt (heap g) x.
Proof. intros H. apply (foldl_frame (fun g => isPlayerAt (heap g) x)), H. Qed.

Lemma refreshVisible_spec (p : Ref) (g : Game) :
  let g' := refreshVisible E p g in
  (forall x, isPlayerAt (heap g') x = isPlayerAt (heap g) x)
  /\ (forall x, playerDirty (playerAt (heap g') x) = playerDirty (playerAt (heap g) x))
  /\ gameDirty g' = gameDirty g.
Proof.
  unfold refreshVisible. case_match; store_norm; repeat split; intros;
    rewrite ?(playerAt_updPlayer_part playerDirty) by reflexivity; store_norm; reflexivity.
Qed.

Lemma updateRole_spec (p : Ref) (g : Game) :
  let g' := updateRole p g in
  (forall x, isPlayerAt (heap g') x = isPlayerAt (heap g) x)
  /\ (forall x, playerDirty (playerAt (heap g') x) = playerDirty (playerAt (heap g) x))
  /\ (forall x, visibleObjects (playerAt (heap g') x) = visibleObjects (playerAt (heap g) x))
  /\ gameDirty g' = gameDirty g.
Proof.
  unfold updateRole. case_match; store_norm; repeat split; intros;
    rewrite ?(playerAt_updPlayer_part playerDirty) by reflexivity;
    rewrite ?(playerAt_updPlayer_part (fun y => visibleObjects y)) by reflexivity;
    store_norm; reflexivity.
Qed.

Lemma copyBroadcasts_spec (p : Ref) (g : Game) :
  let g' := copyBroadcasts p g in
  (forall x, isPlayerAt (heap g') x = isPlayerAt (heap g) x)
  /\ (forall x, fullDirtyObjects (playerAt (heap g') x) = fullDirtyObjects (playerAt (heap g) x))
  /\ (forall x, partialDirtyObjects (playerAt (heap g') x)
                = partialDirtyObjects (playerAt (heap g) x))
  /\ (forall x, deletedObjects (playerAt (heap g') x) = deletedObjects (playerAt (heap g) x))
  /\ (forall x, visibleObjects (playerAt (heap g') x) = visibleObjects (playerAt (heap g) x))
  /\ gameDirty g' = gameDirty g.
Proof.
  unfold copyBroadcasts. repeat case_match; store_norm; repeat split; intros;
    repeat first
      [ rewrite (playerAt_updPlayer_part (fun y => fullDirtyObjects y)) by reflexivity
      | rewrite (playerAt_updPlayer_part (fun y => partialDirtyObjects y)) by reflexivity
      | rewrite (playerAt_updPlayer_part (fun y => deletedObjects y)) by reflexivity
      | rewrite (playerAt_updPlayer_part (fun y => visibleObjects y)) by reflexivity
      | progress store_norm ];
    reflexivity.
Qed.

Lemma collect_frame (p : Ref) (g : Game) :
  gameDirty (collectFull p g) = gameDirty g
  /\ gameDirty (collectPartial p g) = gameDirty g
  /\ gameDirty (collectDeleted p g) = gameDirty g
  /\ (forall x, isPlayerAt (heap (collectFull p g)) x = isPlayerAt (heap g) x)
  /\ (forall x, isPlayerAt (heap (collectPartial p g)) x = isPlayerAt (heap g) x)
  /\ (forall x, isPlayerAt (heap (collectDeleted p g)) x = isPlayerAt (heap g) x).
Proof.
  unfold collectFull, collectPartial, collectDeleted.
  repeat split; intros;
    first [ apply (foldl_frame gameDirty) | apply (foldl_frame (fun g => isPlayerAt (heap g) x)) ];
    intros; repeat case_match; store_norm; reflexivity.
Qed.

Lemma sendUpdates_frame (p : Ref) (g : Game) :
  heap (sendUpdates p g) = heap g /\ gameDirty (sendUpdates p g) = gameDirty g.
Proof.
  unfold sendUpdates, sendPacket. split.
  - rewrite !(foldl_frame heap) by reflexivity. by case_match.
  - rewrite !(foldl_frame gameDirty) by reflexivity. by case_match.
Qed.

(** The pass of one connection, on what it adds to the lists of the
    player. *)
Lemma connectionUpdate_lists (g : Game) (p : Ref) :
  isPlayerAt (heap g) p = true ->
  let g' := connectionUpdate E g p in
  let visible := visibleObjects (getPlayer g' p) in
  fullDirtyObjects (getPlayer g' p)
  = fullDirtyObjects (getPlayer g p) ++ filter (fun o => o ∈ visible) (fullDirtyObjects g)
  /\ partialDirtyObjects (getPlayer g' p)
     = partialDirtyObjects (getPlayer g p) ++ filter (fun o => o ∈ visible) (partialDirtyObjects g)
  /\ deletedObjects (getPlayer g' p) = deletedObjects (getPlayer g p) ++ deletedObjects g
  /\ gameDirty g' = gameDirty g
  /\ isPlayerAt (heap g') p = true.
Proof.
  intros Hp. unfold connectionUpdate, getPlayer. cbv zeta.
  destruct (refreshVisible_spec p g) as (Hp1 & Hd1 & Hg1).
  set (g1 := refreshVisible E p g) in *.
  destruct (updateRole_spec p g1) as (Hp2 & Hd2 & Hv2 & Hg2).
  set (g2 := updateRole p g1) in *.
  destruct (copyBroadcasts_spec p g2) as (Hp3 & Hf3 & Hpa3 & Hde3 & Hv3 & Hg3).
  set (g3 := copyBroadcasts p g2) in *.
  assert (Hp3' : isPlayerAt (heap g3) p = true) by (by rewrite Hp3, Hp2, Hp1).
  destruct (collect_frame p g3) as (Hg4 & _ & _ & Hp4 & _ & _).
  pose proof (pushVisible_loop p pushFull (fullDirtyObjects g3) g3 Hp3') as H4.
  fold (collectFull p g3) in H4.
  set (g4 := collectFull p g3) in *.
  assert (Hp4' : isPlayerAt (heap g4) p = true) by (by rewrite Hp4).
  destruct (collect_frame p g4) as (_ & Hg5 & _ & _ & Hp5 & _).
  pose proof (pushVisible_loop p pushPartial (partialDirtyObjects g4) g4 Hp4') as H5.
  fold (collectPartial p g4) in H5.
  set (g5 := collectPartial p g4) in *.
  assert (Hp5' : isPlayerAt (heap g5) p = true) by (by rewrite Hp5).
  destruct (collect_frame p g5) as (_ & _ & Hg6 & _ & _ & Hp6).
  pose proof (push_loop p pushDeleted (deletedObjects g5) g5 Hp5') as H6.
  fold (collectDeleted p g5) in H6.
  set (g6 := collectDeleted p g5) in *.
  destruct (sendUpdates_frame p g6) as (Hh7 & Hg7).
  rewrite Hh7, Hg7, H6, H5, H4.
  assert (Hgd : gameDirty g3 = gameDirty g) by (by rewrite Hg3, Hg2, Hg1).
  assert (Hgd4 : gameDirty g4 = gameDirty g) by (by rewrite Hg4).
  assert (Hgd5 : gameDirty g5 = gameDirty g) by (by rewrite Hg5).
  cbn [playerDirty upd_playerDirty conn visibleObjects].
  rewrite foldl_pushFull, foldl_pushPartial, foldl_pushDeleted.
  cbn. rewrite ?Hgd4, ?Hgd5, ?Hgd, ?Hg6, ?Hgd5.
  assert (Hfull : fullDirtyObjects (playerAt (heap g3) p) = fullDirtyObjects (playerAt (heap g) p)).
  { rewrite Hf3. change (fullDirtyObjects (playerDirty (playerAt (heap g2) p))
                         = fullDirtyObjects (playerDirty (playerAt (heap g) p))).
    by rewrite Hd2, Hd1. }
  assert (Hpart : partialDirtyObjects (playerAt (heap g3) p)
                  = partialDirtyObjects (playerAt (heap g) p)).
  { rewrite Hpa3. change (partialDirtyObjects (playerDirty (playerAt (heap g2) p))
                          = partialDirtyObjects (playerDirty (playerAt (heap g) p))).
    by rewrite Hd2, Hd1. }
  assert (Hdel : deletedObjects (playerAt (heap g3) p) = deletedObjects (playerAt (heap g) p)).
  { rewrite Hde3. change (deletedObjects (playerDirty (playerAt (heap g2) p))
                          = deletedObjects (playerDirty (playerAt (heap g) p))).
    by rewrite Hd2, Hd1. }
  rewrite Hfull, Hpart, Hdel.
  repeat split; try reflexivity.
  by rewrite ?Hh7, Hp6.
Qed.

(** The pass of a connection leaves the other players and the lists of
    the game as they are. *)
Lemma connectionUpdate_other (g : Game) (q p : Ref) :
  q <> p ->
  playerAt (heap (connectionUpdate E g q)) p = playerAt (heap g) p
  /\ isPlayerAt (heap (connectionUpdate E g q)) p = isPlayerAt (heap g) p
  /\ gameDirty (connectionUpdate E g q) = gameDirty g.
Proof.
  intros Hne. unfold connectionUpdate. cbv zeta.
  destruct (sendUpdates_frame q
              (collectDeleted q (collectPartial q (collectFull q
                 (copyBroadcasts q (updateRole q (refreshVisible E q g)))))))
    as [-> ->].
  unfold collectDeleted, collectPartial, collectFull.
  repeat split.
  - rewrite !(foldl_frame (fun g => playerAt (heap g) p))
      by (intros; repeat case_match; by rewrite ?playerAt_updPlayer_ne).
    unfold copyBroadcasts, updateRole, refreshVisible.
    repeat case_match; rewrite ?playerAt_updPlayer_ne by assumption; reflexivity.
  - rewrite !(foldl_frame (fun g => isPlayerAt (heap g) p))
      by (intros; repeat case_match; by rewrite ?isPlayerAt_updPlayer).
    unfold copyBroadcasts, updateRole, refreshVisible.
    repeat case_match; rewrite ?isPlayerAt_updPlayer; reflexivity.
  - rewrite !(foldl_frame gameDirty)
      by (intros; repeat case_match; by rewrite ?updPlayer_gameDirty).
    unfold copyBroadcasts, updateRole, refreshVisible.
    repeat case_match; rewrite ?updPlayer_gameDirty; reflexivity.
Qed.

Lemma secondLoop_other (l : list Ref) (g : Game) (p : Ref) :
  p ∉ l ->
  playerAt (heap (foldl (connectionUpdate E) g l)) p = playerAt (heap g) p
  /\ isPlayerAt (heap (foldl (connectionUpdate E) g l)) p = isPlayerAt (heap g) p
  /\ gameDirty (foldl (connectionUpdate E) g l) = gameDirty g.
Proof.
  revert g. induction l as [|q l IH]; intros g Hp; cbn [foldl]; [by repeat split|].
  apply not_elem_of_cons in Hp as [Hne Hp].
  destruct (IH (connectionUpdate E g q) Hp) as (-> & -> & ->).
  by apply connectionUpdate_other.
Qed.

(** C6. In the second loop, every connected player [p] gets appended to
    its own lists: the fully dirty and the partly dirty objects of the
    game that are in its set of visible objects, and no other; and all
    the deleted objects of the game, whether visible or not. *)
Theorem secondLoop_delta (g : Game) (p : Ref) :
  p ∈ connectedPlayers g ->
  NoDup (connectedPlayers g) ->
  isPlayerAt (heap g) p = true ->
  let g' := secondLoop E g in
  let visible := visibleObjects (getPlayer g' p) in
  fullDirtyObjects (getPlayer g' p)
  = fullDirtyObjects (getPlayer g p) ++ filter (fun o => o ∈ visible) (fullDirtyObjects g)
  /\ partialDirtyObjects (getPlayer g' p)
     = partialDirtyObjects (getPlayer g p) ++ filter (fun o => o ∈ visible) (partialDirtyObjects g)
  /\ deletedObjects (getPlayer g' p) = deletedObjects (getPlayer g p) ++ deletedObjects g.
Proof.
  intros Hin Hnd Hp. unfold secondLoop.
  apply list_elem_of_split in Hin as (l1 & l2 & Hl). rewrite Hl in *.
  apply NoDup_app in Hnd as (_ & Hl1 & Hnd). apply NoDup_cons in Hnd as [Hl2 _].
  assert (Hp1 : p ∉ l1) by (intros H; apply (Hl1 _ H); left).
  rewrite foldl_app. cbn [foldl].
  destruct (secondLoop_other l1 g p Hp1) as (Hpl & Hisp & Hgd).
  set (g1 := foldl (connectionUpdate E) g l1) in *.
  destruct (secondLoop_other l2 (connectionUpdate E g1 p) p Hl2) as (Hpl2 & _ & _).
  assert (Hp' : isPlayerAt (heap g1) p = true) by (by rewrite Hisp).
  destruct (connectionUpdate_lists g1 p Hp') as (Hf & Hpa & Hd & _ & _).
  unfold getPlayer in *. rewrite Hpl2, Hf, Hpa, Hd, Hpl, Hgd. by repeat split.
Qed.


(** ** The damage records *)

Lemma applyDamageRecord_spec (g : Game) (r : DamageRecord) :
  let g' := applyDamageRecord E g r in
  heap g' = heap g
  /\ calls g' = calls g ++ recordCalls E g r
  /\ bullets g' = removeFrom (bullets g) (bullet r)
  /\ ephemeral g' = ephemeral g.
Proof.
  unfold applyDamageRecord, recordCalls, callDamage.
  destruct (heap g !! damaged r) as [[]|]; store_norm; rewrite <- ?app_assoc; by repeat split.
Qed.

Lemma drain_spec (rs : list DamageRecord) (g : Game) :
  let g' := foldl (applyDamageRecord E) g rs in
  heap g' = heap g
  /\ calls g' = calls g ++ flat_map (recordCalls E g) rs
  /\ bullets g' = foldl removeFrom (bullets g) (bullet <$> rs)
  /\ ephemeral g' = ephemeral g.
Proof.
  revert g. induction rs as [|r rs IH]; intros g; cbn [foldl flat_map fmap list_fmap].
  - rewrite app_nil_r. by repeat split.
  - destruct (applyDamageRecord_spec g r) as (Hh & Hc & Hb & He).
    destruct (IH (applyDamageRecord E g r)) as (Hh' & Hc' & Hb' & He').
    rewrite Hh', Hc', Hb', He', Hh, Hc, Hb, He, <- app_assoc.
    repeat split. f_equal. f_equal.
    apply flat_map_ext. intros r'. unfold recordCalls, getBullet. by rewrite Hh.
Qed.

Lemma removeFrom_subset (l : list Ref) (x y : Ref) : y ∈ removeFrom l x -> y ∈ l.
Proof.
  induction l as [|z l IH]; cbn; [done|].
  destruct (decide (z = x)); [by right|].
  intros [->|Hin]%elem_of_cons; [by left | right; auto].
Qed.

Lemma NoDup_removeFrom (l : list Ref) (x : Ref) : NoDup l -> NoDup (removeFrom l x).
Proof.
  induction 1 as [|z l Hz Hl IH]; cbn; [constructor|].
  destruct (decide (z = x)); [assumption|].
  constructor; [|assumption]. intros Hin. by apply Hz, (removeFrom_subset l x).
Qed.

Lemma foldl_removeFrom_subset (xs l : list Ref) (y : Ref) :
  y ∈ foldl removeFrom l xs -> y ∈ l.
Proof.
  revert l. induction xs as [|x xs IH]; intros l; cbn [foldl]; [done|].
  intros Hin. by apply (removeFrom_subset l x), IH.
Qed.

Lemma foldl_removeFrom_not_elem (xs l : list Ref) (x : Ref) :
  NoDup l -> x ∈ xs -> x ∉ foldl removeFrom l xs.
Proof.
  revert l. induction xs as [|y xs IH]; intros l Hnd Hin; [by apply elem_of_nil in Hin|].
  cbn [foldl]. apply elem_of_cons in Hin as [->|Hin].
  - intros Hx. apply foldl_removeFrom_subset in Hx. by apply (removeFrom_not_elem l y).
  - apply IH; [by apply NoDup_removeFrom | assumption].
Qed.

(** C3, as stated, fails: in the step in which the bullet of the sample
    game begins to touch two players, two records are queued, and the
    drain calls [destroyBody] on the one body of the bullet twice and
    applies the damage of the bullet twice. *)
Lemma bullet_drained_twice :
  match simulate sampleEnv twoContacts bulletGame with
  | Some g' =>
      ~ (forall b, destroyedTimes b (calls g') <= 1)%nat
      /\ damageCalls (calls g') = [(2%positive, 11%Q, 1%positive); (3%positive, 11%Q, 1%positive)]
  | None => False
  end.
Proof.
  vm_compute. split; [|reflexivity].
  intros H. specialize (H 14%positive). vm_compute in H. lia.
Qed.


(** ** What a pickup, a shot and a hit leave alone *)

Lemma steady_refl (g : Game) : steady g g.
Proof. by repeat split. Qed.

Lemma steady_trans (g1 g2 g3 : Game) : steady g1 g2 -> steady g2 g3 -> steady g1 g3.
Proof.
  intros (Hn & Hp & Ha) (Hn' & Hp' & Ha'). repeat split; intros.
  - by rewrite Hn', Hn.
  - by rewrite Hp', Hp.
  - by rewrite Ha', Ha.
Qed.

Lemma steady_updPlayer (g g1 : Game) (r : Ref) (f : Player -> Player) :
  (forall y, anim (f y) = anim y) ->
  steady g g1 -> steady g (updPlayer r f g1).
Proof.
  intros Hf (Hn & Hp & Ha). repeat split; intros; store_norm.
  - exact Hn.
  - apply Hp.
  - rewrite (playerAt_updPlayer_part anim) by assumption. apply Ha.
Qed.

Lemma steady_updLoot (g g1 : Game) (r : Ref) (f : Loot -> Loot) :
  steady g g1 -> steady g (updLoot r f g1).
Proof. intros (Hn & Hp & Ha). repeat split; intros; store_norm; auto. Qed.

(** Any change that keeps the store and [newObjects]. *)
Lemma steady_same_heap (g g1 g2 : Game) :
  heap g2 = heap g1 -> newObjects g2 = newObjects g1 ->
  steady g g1 -> steady g g2.
Proof. intros Hh Hn' (Hn & Hp & Ha). repeat split; intros; rewrite ?Hh, ?Hn'; auto. Qed.

(** A new object that is not a player, at a reference that was free. *)
Lemma steady_alloc (g g1 g2 : Game) (r : Ref) (o : Obj) :
  heap g1 !! r = None ->
  heap g2 = <[r := o]> (heap g1) -> newObjects g2 = newObjects g1 ->
  (forall pl, o <> OPlayer pl) ->
  steady g g1 -> steady g g2.
Proof.
  intros Hfree Hh Hn' Ho (Hn & Hp & Ha).
  assert (Hsame : forall x, isPlayerAt (heap g2) x = isPlayerAt (heap g1) x
                            /\ playerAt (heap g2) x = playerAt (heap g1) x).
  { intros x. rewrite Hh. unfold isPlayerAt, playerAt.
    destruct (decide (r = x)) as [<-|Hne].
    - rewrite lookup_insert_eq, Hfree. destruct o; try done. by exfalso; eapply Ho.
    - by rewrite lookup_insert_ne. }
  repeat split; intros.
  - by rewrite Hn'.
  - by rewrite (proj1 (Hsame x)).
  - by rewrite (proj2 (Hsame x)).
Qed.

Lemma steady_newLoot (g g1 g2 : Game) (ts : string) (pos : Vec2) (lay : Z) (cnt : num) (r : Ref) :
  newLoot E ts pos lay cnt false g1 = (r, g2) ->
  steady g g1 -> steady g g2.
Proof.
  intros Hnl.
  destruct (newLoot_spec ts pos lay cnt g1)
    as (_ & Hfresh & _ & Hheap & _ & _ & _ & Heph & _).
  rewrite Hnl in *. cbn [fst snd] in *.
  eapply steady_alloc; [exact Hfresh | exact Hheap | by rewrite Heph | intros ?; discriminate].
Qed.

Lemma steady_newBullet (g g1 g2 : Game) (sh : Ref) (pos dir : Vec2) (ts : string)
    (source lay : Z) (r : Ref) :
  newBullet sh pos dir ts source lay g1 = (r, g2) ->
  steady g g1 -> steady g g2.
Proof.
  unfold newBullet, createBody. cbv beta iota zeta. intros [= <- <-].
  eapply steady_alloc;
    [apply not_elem_of_dom, is_fresh | reflexivity | reflexivity | intros ?; discriminate].
Qed.

(** The tactic that walks through a function made of these steps. *)
Ltac steady_step :=
  first
    [ assumption
    | apply steady_refl
    | apply steady_updPlayer; [intros; reflexivity|]
    | apply steady_updLoot
    | eapply steady_newLoot; [eassumption|]
    | eapply steady_newBullet; [eassumption|]
    | eapply steady_same_heap; [store_norm; reflexivity | store_norm; reflexivity|] ].

Lemma pickUpTieredItem_steady (this p : Ref) (type : string) (g : Game) :
  steady g (snd (pickUpTieredItem E this type p g)).
Proof.
  unfold pickUpTieredItem. repeat case_match; cbn [snd]; repeat steady_step.
Qed.

Lemma interactDispatch_steady (this p : Ref) (g : Game) :
  steady g (snd (interactDispatch E this p g)).
Proof.
  unfold interactDispatch.
  repeat match goal with
         | |- context [pickUpTieredItem E ?a ?b ?c ?d] =>
             let H := fresh in
             pose proof (pickUpTieredItem_steady a c b d) as H; revert H;
             destruct (pickUpTieredItem E a b c d); cbn [snd]; intros H
         end.
  repeat case_match; simplify_eq; cbn [snd]; repeat steady_step.
Qed.

Lemma interactFinish_steady (this p : Ref) (result : PickupMsgType)
    (deleteItem playerDirty : bool) (g g1 : Game) :
  steady g g1 -> steady g (interactFinish this p result deleteItem playerDirty g1).
Proof.
  intros H. unfold interactFinish. repeat case_match; repeat steady_step.
Qed.

Lemma interact_steady (this p : Ref) (g : Game) : steady g (snd (interact E this p g)).
Proof.
  unfold interact. pose proof (interactDispatch_steady this p g) as H.
  destruct (interactDispatch E this p g) as [[[result deleteItem] playerDirty] g1].
  cbn [snd] in *. by apply interactFinish_steady.
Qed.

Lemma foldl_steady {A : Type} (step : Game -> A -> Game) (l : list A) (g g1 : Game) :
  (forall h x, steady h (step h x)) ->
  steady g g1 -> steady g (foldl step g1 l).
Proof.
  intros Hstep. revert g1. induction l as [|x l IH]; intros g1 H; cbn [foldl]; [assumption|].
  apply IH. eapply steady_trans; [exact H | apply Hstep].
Qed.

Lemma touchPickup_steady (p : Ref) (g : Game) : steady g (touchPickup E p g).
Proof.
  unfold touchPickup. case_match; [|apply steady_refl].
  apply foldl_steady; [|apply steady_refl].
  intros h x. unfold touchPickupOne.
  repeat case_match; first [apply interact_steady | apply steady_refl].
Qed.

Lemma movement_steady (p : Ref) (g : Game) : steady g (movement p g).
Proof. unfold movement. repeat case_match; repeat steady_step. Qed.

Lemma adrenaline_steady (p : Ref) (g : Game) : steady g (adrenaline p g).
Proof. unfold adrenaline. repeat steady_step. Qed.

Lemma actionLogic_steady (p : Ref) (g : Game) : steady g (actionLogic E p g).
Proof.
  unfold actionLogic, dateNow, markFullDirty.
  repeat case_match; simplify_eq; repeat steady_step.
Qed.

Lemma fireGun_steady (p : Ref) (g g1 : Game) : steady g g1 -> steady g (fireGun E p g1).
Proof.
  intros H. unfold fireGun. repeat case_match; repeat steady_step.
Qed.

Lemma callDamage_steady (target : Ref) (amount : Q) (source : Ref) (g g1 : Game) :
  steady g g1 -> steady g (callDamage target amount source g1).
Proof. intros H. unfold callDamage. repeat case_match; repeat steady_step. Qed.

Lemma callInteract_steady (target p : Ref) (g g1 : Game) :
  steady g g1 -> steady g (callInteract E target p g1).
Proof.
  intros H. unfold callInteract. repeat case_match; repeat steady_step.
  all: eapply steady_trans; [exact H | apply interact_steady].
Qed.

(** ** What the whole tick leaves alone *)













Lemma untilWeaponLogic_steady (p : Ref) (g : Game) : steady g (untilWeaponLogic E p g).
Proof.
  unfold untilWeaponLogic.
  eapply steady_trans; [apply movement_steady|].
  eapply steady_trans; [apply touchPickup_steady|].
  eapply steady_trans; [apply adrenaline_steady|].
  apply actionLogic_steady.
Qed.








Lemma wrapUp_frame (tickStart : Z) (g : Game) :
  gameDirty (snd (wrapUp E tickStart g)) = gameDirty g
  /\ ephemeral (snd (wrapUp E tickStart g)) = ephemeral g
  /\ heap (snd (wrapUp E tickStart g)) = heap g.
Proof. unfold wrapUp, dateNow. repeat case_match; simplify_eq; by repeat split. Qed.



(** ** The end of a tick *)

(** A tick of an active game either raises in the first loop or ends
    with the reset and the scheduling of the next tick. *)
Lemma tick_active (st : StepOutcome) (g : Game) :
  active g = true ->
  tick E st g =
  match simulate E st (snd (dateNow E g)) with
  | Some gs =>
      Some (Some (fst (wrapUp E (fst (dateNow E g)) (resetEverything (secondLoop E gs)))),
            snd (wrapUp E (fst (dateNow E g)) (resetEverything (secondLoop E gs))))
  | None => None
  end.
Proof.
  intros Ha. unfold tick. cbn [dateNow fst snd].
  change (active (upd_machine (fun m => set_clockReads (S (clockReads m)) m) g)) with (active g).
  rewrite Ha. cbn [negb].
  destruct (simulate E st _) as [gs|]; [|reflexivity]. cbn [mbind option_bind].
  match goal with |- context [wrapUp ?e ?a ?b] => by destruct (wrapUp e a b) end.
Qed.

(** C3. The damage records are applied by the drain, which runs after the
    physics step that queued them and before the first loop. Each record,
    in order, makes one damage call on its target (none on a loot) with
    the damage of its bullet, one [destroyBody] call on the body of its
    bullet and one [removeFrom] on the live bullets: a bullet with
    several records is damaged with and destroyed once per record. After
    the drain no bullet of a record is in a list of live bullets that had
    no duplicates, and a tick that ends leaves no record behind. *)
Theorem damage_records_drained (st : StepOutcome) (g : Game) :
  let queued := updateLootPositions
                  (let g := worldStep st g in
                   if aliveCountDirty g
                   then upd_session (set_aliveCounts (Some AliveCountsPacket)) g else g) in
  let drained := drainDamageRecords E queued in
  simulate E st g = firstLoop E drained
  /\ calls drained = calls queued ++ flat_map (recordCalls E queued) (damageRecords queued)
  /\ bullets drained = foldl removeFrom (bullets queued) (bullet <$> damageRecords queued)
  /\ (NoDup (bullets queued) ->
      forall r, r ∈ damageRecords queued -> bullet r ∉ bullets drained)
  /\ (forall delay g', tick E st g = Some (Some delay, g') -> damageRecords g' = []).
Proof.
  intros queued drained.
  destruct (drain_spec (damageRecords queued) queued) as (_ & Hc & Hb & _).
  fold (drainDamageRecords E queued) in Hc, Hb. fold drained in Hc, Hb.
  split; [reflexivity|]. split; [exact Hc|]. split; [exact Hb|]. split.
  - intros Hnd r Hr. rewrite Hb. apply foldl_removeFrom_not_elem; [assumption|].
    by apply list_elem_of_fmap_2.
  - intros delay g' Ht.
    destruct (active g) eqn:Ha.
    + rewrite tick_active in Ht by assumption.
      destruct (simulate E st _) as [gs|]; [|discriminate].
      destruct (wrapUp_frame (fst (dateNow E g)) (resetEverything (secondLoop E gs)))
        as (_ & Heph & _).
      remember (wrapUp E (fst (dateNow E g)) (resetEverything (secondLoop E gs))) as w.
      injection Ht as _ <-. by rewrite Heph.
    + unfold tick in Ht. cbn [dateNow fst snd] in Ht.
      change (active (upd_machine (fun m => set_clockReads (S (clockReads m)) m) g))
        with (active g) in Ht.
      rewrite Ha in Ht. discriminate.
Qed.




(** ** Dirty lists and the registry *)

(** The deletion path of [removePlayer] takes the player out of the dirty
    lists of the game before it pushes it into [deletedObjects]. *)
Lemma removePlayer_leaves_no_dirt (p : Ref) (g : Game) :
  inventoryEmpty (getPlayer g p) = true ->
  NoDup (objects g) -> NoDup (partialDirtyObjects g) -> NoDup (fullDirtyObjects g) ->
  let g' := removePlayer p g in
  (p ∉ objects g') /\ (p ∉ partialDirtyObjects g') /\ (p ∉ fullDirtyObjects g')
  /\ (p ∈ deletedObjects g').
Proof.
  intros Hempty Ho Hpd Hfd. unfold removePlayer. cbv zeta.
  replace (inventoryEmpty (getPlayer (destroyBody (body (getPlayer g p)) g) p)) with true
    by (unfold getPlayer; by rewrite destroyBody_heap).
  case_match; store_norm;
    (repeat split; [by apply removeFrom_not_elem .. | set_solver]).
Qed.

(** C4. In a tick of the sample game in which the stack of bandages has
    slid and the player, on mobile and next to it, picks all of it up,
    the first loop ends with the stack in [partialDirtyObjects] and in
    [deletedObjects] and no longer in [objects]: [Loot.interact] does not
    take the loot out of the dirty lists, as [removePlayer] does for a
    player. *)
Theorem picked_up_loot_stays_dirty :
  match simulate sampleEnv lootSlides (lootGame true 0) with
  | Some g' =>
      (2%positive ∈ partialDirtyObjects g')
      /\ (2%positive ∉ objects g')
      /\ (2%positive ∈ deletedObjects g')
  | None => False
  end.
Proof.
  vm_compute. repeat split.
  - apply list_elem_of_here.
  - intros H. apply elem_of_cons in H as [H|H]; [discriminate | by apply elem_of_nil in H].
  - apply list_elem_of_here.
Qed.


(** ** The melee attack *)

Lemma Qltb_lt (a b : Q) : Qltb a b = true <-> (a < b)%Q.
Proof.
  unfold Qltb. rewrite negb_true_iff. split.
  - intros H. apply Qnot_le_lt. intros Hle. apply Qle_bool_iff in Hle. congruence.
  - intros H. destruct (Qle_bool b a) eqn:Hle; [|reflexivity].
    apply Qle_bool_iff in Hle. by apply Qlt_not_le in H.
Qed.

Lemma Qltb_ge (a b : Q) : Qltb a b = false <-> (b <= a)%Q.
Proof.
  unfold Qltb. rewrite negb_false_iff. apply Qle_bool_iff.
Qed.

(** The scan keeps the smallest distance among the objects that are hit,
    when it is smaller than the one it starts from, and the first object
    at that distance. *)
Lemma closestScan_spec (g : Game) (p : Ref) (pos : Vec2) (rad : Q) (l : list Ref) :
  forall (minDist : Q) (closest : option Ref),
  (forall o, o ∈ l -> meleeCandidate g p o = true -> is_Some (meleeRecord E g o pos rad)) ->
  exists minDist' closest',
    closestScan E g p pos rad l minDist closest = Some (minDist', closest')
    /\ (minDist' <= minDist)%Q
    /\ (forall o record, o ∈ l -> meleeHit E g p pos rad o record ->
                         (minDist' <= distance record)%Q)
    /\ ((closest' = closest /\ minDist' = minDist)
        \/ (exists o record, closest' = Some o /\ o ∈ l /\ meleeHit E g p pos rad o record
                             /\ minDist' = distance record
                             /\ (distance record < minDist)%Q)).
Proof.
  induction l as [|x l IH]; intros minDist closest Htyped; cbn [closestScan].
  - exists minDist, closest. split; [reflexivity|]. split; [apply Qle_refl|].
    split; [|by left]. intros o record Hin. by apply elem_of_nil in Hin.
  - assert (Htyped' : forall o, o ∈ l -> meleeCandidate g p o = true ->
                                 is_Some (meleeRecord E g o pos rad))
      by (intros o Ho; apply Htyped; by right).
    destruct (meleeCandidate g p x) eqn:Hcand.
    + destruct (Htyped x (list_elem_of_here _ _) Hcand) as [record Hrec]. rewrite Hrec.
      destruct (collided record && Qltb (distance record) minDist) eqn:Hupd.
      * apply andb_true_iff in Hupd as [Hcol Hlt]. apply Qltb_lt in Hlt.
        destruct (IH (distance record) (Some x) Htyped')
          as (m & c & Hscan & Hle & Hmin & Hwho).
        exists m, c. split; [exact Hscan|].
        split; [eapply Qle_trans; [exact Hle | by apply Qlt_le_weak]|].
        split.
        { intros o record' [->|Hin]%elem_of_cons Hhit; [|by eapply Hmin].
          destruct Hhit as (_ & Hrec' & _). rewrite Hrec in Hrec'. by simplify_eq. }
        right. destruct Hwho as [[-> ->]|(o & record' & -> & Hin & Hhit & -> & Hlt')].
        -- exists x, record. split; [reflexivity|]. split; [apply list_elem_of_here|].
           split; [by repeat split|]. by split.
        -- exists o, record'. split; [reflexivity|]. split; [by right|].
           split; [exact Hhit|]. split; [reflexivity|].
           eapply Qlt_trans; eassumption.
      * destruct (IH minDist closest Htyped') as (m & c & Hscan & Hle & Hmin & Hwho).
        exists m, c. split; [exact Hscan|]. split; [exact Hle|]. split.
        { intros o record' [->|Hin]%elem_of_cons Hhit; [|by eapply Hmin].
          destruct Hhit as (_ & Hrec' & Hcol). rewrite Hrec in Hrec'. simplify_eq.
          rewrite Hcol in Hupd. cbn in Hupd. apply Qltb_ge in Hupd.
          eapply Qle_trans; eassumption. }
        destruct Hwho as [[-> ->]|(o & record' & -> & Hin & Hhit & -> & Hlt')]; [by left|].
        right. exists o, record'. split; [reflexivity|]. split; [by right|]. split; [exact Hhit|]. by split.
    + destruct (IH minDist closest Htyped') as (m & c & Hscan & Hle & Hmin & Hwho).
      exists m, c. split; [exact Hscan|]. split; [exact Hle|]. split.
      { intros o record' [->|Hin]%elem_of_cons Hhit; [|by eapply Hmin].
        destruct Hhit as (Hc & _). congruence. }
      destruct Hwho as [[-> ->]|(o & record' & -> & Hin & Hhit & -> & Hlt')]; [by left|].
      right. exists o, record'. split; [reflexivity|]. split; [by right|]. split; [exact Hhit|]. by split.
Qed.


Lemma meleeRecord_class (g : Game) (o : Ref) (pos : Vec2) (rad : Q) (record : CollisionRecord) :
  meleeRecord E g o pos rad = Some record ->
  (exists q, heap g !! o = Some (OPlayer q)) \/ (exists b, heap g !! o = Some (OObstacle b)).
Proof.
  unfold meleeRecord. destruct (heap g !! o) as [[q|b|l|b|]|]; try discriminate; eauto.
Qed.

(** The punch on an object that is not a loot: two recorded calls at
    most. *)
Lemma melee_calls (g : Game) (c p : Ref) (pos : Vec2) (rad : Q) (record : CollisionRecord) :
  meleeRecord E g c pos rad = Some record ->
  (let g := callDamage c 24 p g in
   if default false (objInteractable <$> heap g !! c) then callInteract E c p g else g)
  = (if default false (objInteractable <$> heap g !! c)
     then call (CInteract c p) (call (CDamage c 24 p) g)
     else call (CDamage c 24 p) g).
Proof.
  intros Hrec. unfold callDamage, callInteract. cbv zeta.
  destruct (meleeRecord_class _ _ _ _ _ Hrec) as [[q Hq]|[b Hb]].
  - rewrite Hq. cbn [call heap machine upd_machine set_calls]. rewrite ?Hq. reflexivity.
  - rewrite Hb. cbn [call heap machine upd_machine set_calls]. rewrite ?Hb. reflexivity.
Qed.

(** The melee logic, when every visible object that passes the guard is
    a player or an obstacle: it returns, and what it does is decided by
    the closest object that is hit. *)
Lemma meleeLogic_spec (p : Ref) (h : Game) :
  let punching := startPunch p h in
  let pos := meleePosition E punching p in
  let rad := meleeRadius E punching p in
  let visible := visibleObjects (getPlayer punching p) in
  (forall o, o ∈ visible -> meleeCandidate punching p o = true ->
             is_Some (meleeRecord E punching o pos rad)) ->
  exists g1,
    meleeLogic E p h = Some g1
    /\ ((g1 = punching
         /\ forall o record, o ∈ visible -> meleeHit E punching p pos rad o record ->
                             (MAX_VALUE <= distance record)%Q)
        \/ (exists c record,
              c ∈ visible
              /\ meleeHit E punching p pos rad c record
              /\ (distance record < MAX_VALUE)%Q
              /\ (forall o record', o ∈ visible -> meleeHit E punching p pos rad o record' ->
                                    (distance record <= distance record')%Q)
              /\ g1 = (if default false (objInteractable <$> heap punching !! c)
                       then call (CInteract c p) (call (CDamage c 24 p) punching)
                       else call (CDamage c 24 p) punching))).
Proof.
  intros punching pos rad visible Htyped. unfold meleeLogic.
  fold punching. fold pos. fold rad. fold visible.
  destruct (closestScan_spec punching p pos rad visible MAX_VALUE None Htyped)
    as (m & c & Hscan & _ & Hmin & Hwho).
  rewrite Hscan. cbn [mbind option_bind].
  destruct Hwho as [[-> ->]|(o & record & -> & Hin & Hhit & -> & Hlt)].
  - exists punching. split; [reflexivity|]. left. split; [reflexivity | exact Hmin].
  - eexists. split; [reflexivity|]. right. exists o, record.
    split; [exact Hin|]. split; [exact Hhit|]. split; [exact Hlt|]. split; [exact Hmin|].
    destruct Hhit as (_ & Hrec & _). apply (melee_calls punching o p pos rad record Hrec).
Qed.

(** *** The animation *)

Lemma animationLogic_running (p : Ref) (g : Game) :
  isPlayerAt (heap g) p = true ->
  animActive (getPlayer g p) = true ->
  let a := anim (getPlayer g p) in
  let g' := animationLogic p g in
  isPlayerAt (heap g') p = true
  /\ (animTime a + 1 <= 8 ->
      anim (getPlayer g' p) = MkAnim true (animType a) (animSeq a) (animTime a + 1))
  /\ (8 < animTime a + 1 ->
      anim (getPlayer g' p) = MkAnim false 0 0 (-1)
      /\ p ∈ fullDirtyObjects g'
      /\ p ∈ fullDirtyObjects (getPlayer g' p)).
Proof.
  intros Hp Hact a g'. subst a g'. unfold animationLogic, markFullDirty. rewrite Hact.
  set (g1 := updPlayer p _ g).
  assert (Hp1 : isPlayerAt (heap g1) p = true) by (subst g1; by rewrite isPlayerAt_updPlayer).
  assert (Ha1 : anim (getPlayer g1 p)
                = MkAnim true (animType (getPlayer g p)) (animSeq (getPlayer g p))
                         (animTime (getPlayer g p) + 1)).
  { subst g1. unfold getPlayer in *. rewrite playerAt_updPlayer_eq by assumption.
    cbn. by rewrite Hact. }
  clearbody g1.
  replace (animTime (getPlayer g1 p)) with (animTime (getPlayer g p) + 1)
    by (change (animTime (getPlayer g1 p)) with (animTime (anim (getPlayer g1 p)));
        by rewrite Ha1).
  split; [|split].
  - repeat case_match; store_norm; assumption.
  - intros Hle. replace (animTime (getPlayer g p) + 1 >? 8) with false by lia.
    case_match; unfold getPlayer in *; store_norm;
      rewrite ?(playerAt_updPlayer_part anim) by reflexivity; assumption.
  - intros Hgt. replace (animTime (getPlayer g p) + 1 >? 8) with true by lia.
    unfold getPlayer in *. store_read.
    repeat split; cbn; set_solver.
Qed.

Lemma startPunch_animating (p : Ref) (g : Game) :
  animActive (getPlayer g p) = true -> startPunch p g = g.
Proof. unfold startPunch. by intros ->. Qed.

Lemma stampCooldown_steady (p : Ref) (g : Game) : steady g (stampCooldown E p g).
Proof. unfold stampCooldown, dateNow. repeat steady_step. Qed.

Lemma meleeLogic_steady_animating (p : Ref) (h g1 : Game) :
  animActive (getPlayer h p) = true ->
  meleeLogic E p h = Some g1 -> steady h g1.
Proof.
  intros Hact. unfold meleeLogic. rewrite (startPunch_animating p h Hact). intros H.
  destruct (closestScan E _ _ _ _ _ _ _) as [[minDist [c|]]|]; cbn in H; simplify_eq.
  - case_match; [apply callInteract_steady|]; apply callDamage_steady, steady_refl.
  - apply steady_refl.
Qed.

Lemma weaponLogic_steady_animating (p : Ref) (h g1 : Game) :
  animActive (getPlayer h p) = true ->
  weaponLogic E p h = Some g1 -> steady h g1.
Proof.
  intros Hact. unfold weaponLogic. intros H.
  set (h1 := updPlayer p (upd_intent (set_shootStart false)) h) in *.
  assert (H1 : steady h h1) by (subst h1; repeat steady_step).
  assert (H2 : steady h (stampCooldown E p h1))
    by (eapply steady_trans; [exact H1 | apply stampCooldown_steady]).
  assert (Hact2 : animActive (getPlayer (stampCooldown E p h1) p) = true).
  { destruct H2 as (_ & _ & Ha). unfold getPlayer in *.
    change (animActive (anim (playerAt (heap (stampCooldown E p h1)) p)) = true).
    by rewrite Ha. }
  repeat case_match; simplify_eq; try apply steady_refl; try assumption.
  - eapply steady_trans; [exact H2 | by eapply meleeLogic_steady_animating].
  - by apply fireGun_steady.
  - apply fireGun_steady, stampCooldown_steady.
Qed.

(** One more run of the body while the animation is active. *)
Lemma playerLogic_running (p : Ref) (h g' : Game) :
  isPlayerAt (heap h) p = true ->
  animActive (getPlayer h p) = true ->
  playerLogic E p h = Some g' ->
  let a := anim (getPlayer h p) in
  isPlayerAt (heap g') p = true
  /\ (animTime a + 1 <= 8 ->
      anim (getPlayer g' p) = MkAnim true (animType a) (animSeq a) (animTime a + 1))
  /\ (8 < animTime a + 1 ->
      anim (getPlayer g' p) = MkAnim false 0 0 (-1)
      /\ p ∈ fullDirtyObjects g'
      /\ p ∈ fullDirtyObjects (getPlayer g' p)).
Proof.
  intros Hp Hact Hrun a. subst a. unfold playerLogic in Hrun. cbv zeta in Hrun.
  destruct (untilWeaponLogic_steady p h) as (_ & Hp1 & Ha1).
  set (h1 := untilWeaponLogic E p h) in *.
  destruct (weaponLogic E p h1) as [g1|] eqn:Hw; cbn in Hrun; [|discriminate].
  injection Hrun as <-.
  assert (Hact1 : animActive (getPlayer h1 p) = true).
  { unfold getPlayer in *. change (animActive (anim (playerAt (heap h1) p)) = true).
    by rewrite Ha1. }
  destruct (weaponLogic_steady_animating p h1 g1 Hact1 Hw) as (_ & Hp2 & Ha2).
  assert (Hanim : anim (getPlayer g1 p) = anim (getPlayer h p))
    by (unfold getPlayer; by rewrite Ha2, Ha1).
  assert (Hact2 : animActive (getPlayer g1 p) = true).
  { change (animActive (anim (getPlayer g1 p)) = true). by rewrite Hanim. }
  assert (Hpg1 : isPlayerAt (heap g1) p = true) by (by rewrite Hp2, Hp1).
  pose proof (animationLogic_running p g1 Hpg1 Hact2) as H. cbv zeta in H.
  rewrite Hanim in H. exact H.
Qed.

(** From the run in which the punch starts: the animation is active
    after that run and after each of the next seven, and the eighth run
    after it clears it and marks the player fully dirty. *)
Lemma animation_timeline (p : Ref) (g0 : Game) :
  isPlayerAt (heap g0) p = true ->
  anim (getPlayer g0 p) = MkAnim true 1 1 1 ->
  forall n g, laterRuns E p n g0 g ->
    ((n <= 7)%nat ->
       isPlayerAt (heap g) p = true
       /\ anim (getPlayer g p) = MkAnim true 1 1 (1 + Z.of_nat n))
    /\ (n = 8%nat ->
        anim (getPlayer g p) = MkAnim false 0 0 (-1)
        /\ p ∈ fullDirtyObjects g
        /\ p ∈ fullDirtyObjects (getPlayer g p)).
Proof.
  intros Hp0 Ha0 n g Hruns.
  induction Hruns as [g|n g h h' g' Hruns IH Hp' Hsame Hrun].
  - split; [|discriminate]. intros _. split; assumption.
  - destruct (decide (n <= 7)%nat) as [Hn|Hn]; [|split; intros; lia].
    destruct (IH Hp0 Ha0) as [IHle _]. destruct (IHle Hn) as [_ Hanim].
    rewrite <- Hsame in Hanim.
    assert (Hact' : animActive (getPlayer h' p) = true)
      by (change (animActive (anim (getPlayer h' p)) = true); by rewrite Hanim).
    destruct (playerLogic_running p h' g' Hp' Hact' Hrun) as (Hpg & Hgo & Hstop).
    rewrite Hanim in Hgo, Hstop. cbn [animTime animType animSeq] in Hgo, Hstop.
    split.
    + intros Hle. split; [exact Hpg|]. rewrite Hgo by lia. f_equal. lia.
    + intros Heq. apply Hstop. lia.
Qed.

(** An object the punch reaches, spelled out on the store: the guard of
    line 291, the test of the shape of lines 293 to 301, and the answer
    of the test. *)
Lemma meleeHit_spelled (s : Game) (p : Ref) (pos : Vec2) (rad : Q) (o : Ref)
    (record : CollisionRecord) :
  meleeHit E s p pos rad o record <->
  o <> p /\ collided record = true
  /\ match heap s !! o with
     | Some (OPlayer q) =>
         body q <> None /\ dead q = false /\ damageable q = true
         /\ record = distanceToCircle E (playerPosition E s o) (scale q) pos rad
     | Some (OObstacle c) =>
         body c <> None /\ dead c = false /\ damageable c = true
         /\ record = match collisionType (collision c) with
                     | Circle =>
                         distanceToCircle E (position c) (collisionRad (collision c)) pos rad
                     | Rectangle =>
                         distanceToRect E (collisionMin (collision c))
                                        (collisionMax (collision c)) pos rad
                     end
     | _ => False
     end.
Proof.
  unfold meleeHit, meleeCandidate, meleeRecord.
  destruct (heap s !! o) as [[q|c|l|b|]|]; cbn [objBody objDead objDamageable];
    try (split; [intros (_ & Hrec & _); discriminate Hrec | intros (_ & _ & [])]);
    rewrite !andb_true_iff, !bool_decide_eq_true, negb_true_iff;
    (split;
     [ intros ((((Hbody & Hdead) & Hne) & Hdam) & Hrec & Hcol); injection Hrec as <-;
       by repeat split
     | intros (Hne & Hcol & Hbody & Hdead & Hdam & ->); by repeat split ]).
Qed.

(** When no loot passes the guard, every object that passes it is
    measured. *)
Lemma meleeRecord_defined (s : Game) (p : Ref) (pos : Vec2) (rad : Q) (l : list Ref) :
  (forall o lo, o ∈ l -> heap s !! o = Some (OLoot lo) ->
                body lo = None \/ dead lo = true \/ damageable lo = false) ->
  forall o, o ∈ l -> meleeCandidate s p o = true -> is_Some (meleeRecord E s o pos rad).
Proof.
  intros Hloot o Hin. unfold meleeCandidate, meleeRecord.
  destruct (heap s !! o) as [[q|c|lo|b|]|] eqn:Ho; cbn [objBody objDead objDamageable];
    try (intros _; by eexists); try discriminate;
    rewrite ?andb_false_r, ?andb_true_iff, ?bool_decide_eq_true, ?negb_true_iff;
    try discriminate.
  intros (((Hbody & Hdead) & _) & Hdam).
  destruct (Hloot o lo Hin Ho) as [?|[?|?]]; congruence.
Qed.

(** The attacker when the scan starts: the request is taken back, the
    cooldown is stamped and the punch has started, and the rest of the
    player is as the weapon logic found it. *)
Lemma punching_player (p : Ref) (h : Game) :
  isPlayerAt (heap h) p = true ->
  let pl := getPlayer h p in
  let punching :=
    startPunch p (stampCooldown E p (updPlayer p (upd_intent (set_shootStart false)) h)) in
  direction (getPlayer punching p) = direction pl
  /\ scale (getPlayer punching p) = scale pl
  /\ slotTypeString (melee (getPlayer punching p)) = slotTypeString (melee pl)
  /\ visibleObjects (getPlayer punching p) = visibleObjects pl.
Proof.
  intros Hp. cbv zeta. unfold startPunch, markFullDirty, stampCooldown, dateNow.
  set (h1 := upd_machine (fun m => set_clockReads (S (clockReads m)) m)
               (updPlayer p (upd_intent (set_shootStart false)) h)).
  assert (Hp1 : isPlayerAt (heap h1) p = true) by (subst h1; store_norm; assumption).
  assert (Hpl1 : playerAt (heap h1) p = upd_intent (set_shootStart false) (playerAt (heap h) p))
    by (subst h1; store_read; reflexivity).
  case_match; unfold getPlayer; store_read; rewrite Hpl1;
    cbn [gear upd_gear upd_intent intent vitals conn upd_anim upd_playerDirty
         direction set_shootStart];
    (repeat split; try reflexivity);
    by destruct (activeWeapon (playerAt (heap h) p)).
Qed.

(** The punch starts the animation of a player who is not animating. *)
Lemma punching_anim (p : Ref) (h : Game) :
  isPlayerAt (heap h) p = true ->
  animActive (getPlayer h p) = false ->
  let punching :=
    startPunch p (stampCooldown E p (updPlayer p (upd_intent (set_shootStart false)) h)) in
  isPlayerAt (heap punching) p = true
  /\ anim (getPlayer punching p) = MkAnim true 1 1 0.
Proof.
  intros Hp Hidle. cbv zeta.
  set (armed := stampCooldown E p (updPlayer p (upd_intent (set_shootStart false)) h)).
  assert (Harmed : steady h armed).
  { subst armed. eapply steady_trans; [|apply stampCooldown_steady]. repeat steady_step. }
  destruct Harmed as (_ & Hparmed & Haarmed).
  assert (Hpa : isPlayerAt (heap armed) p = true) by (by rewrite Hparmed).
  clearbody armed. unfold startPunch.
  replace (animActive (getPlayer armed p)) with false
    by (change (animActive (anim (getPlayer armed p))) with
               (animActive (anim (playerAt (heap armed) p)));
        by rewrite Haarmed).
  cbn [negb]. unfold markFullDirty, getPlayer. store_read. by split.
Qed.

Lemma heap_call (c : Call) (g : Game) : heap (call c g) = heap g.
Proof. reflexivity. Qed.

(** C8. A player [p] whose weapon logic starts with a fire request, a
    melee weapon in hand and the cooldown over. The punch is tested at
    the position of [p] plus the attack offset of the weapon, stretched
    by the scale of [p] and turned to the direction of [p], within the
    attack radius of the weapon. An object is reached when it is not [p],
    has a body, is not dead and is damageable, and the test of its shape
    says it collides: circle against circle with the position and the
    scale of a player; circle against circle with the position and the
    radius of an obstacle whose collision is a circle; circle against
    rectangle with the corners of an obstacle whose collision is a
    rectangle; nothing else is reached. No visible loot passing the guard
    (it would leave [record] undefined, and line 302 would raise), the
    weapon logic returns: when no visible object is reached at a
    distance below [Number.MAX_VALUE], (2^53 - 1) * 2^971, nothing is
    hit; otherwise one reached visible object, no farther than any other,
    gets [damage(24, p)] and then, if it is interactable, [interact(p)],
    and nothing else is called. If [p] was not animating, the animation
    is active after this run of the loop body and after each of the next
    seven runs, and the eighth run after it clears the animation and
    marks [p] fully dirty. *)
Theorem melee_attack (p : Ref) (g : Game) :
  let h := untilWeaponLogic E p g in
  let pl := getPlayer h p in
  let punching :=
    startPunch p (stampCooldown E p (updPlayer p (upd_intent (set_shootStart false)) h)) in
  let weapon := Weapons E (slotTypeString (melee pl)) in
  let rad := attackRad weapon in
  let pos := Vec2_add (playerPosition E punching p)
               (vec2Rotate E (Vec2_add (attackOffset weapon)
                                       (Vec2_mul (MkVec2 1 0) (scale pl - 1)))
                           (unitVecToRadians E (direction pl))) in
  let visible := visibleObjects pl in
  let reached (o : Ref) (record : CollisionRecord) : Prop :=
    o <> p /\ collided record = true
    /\ match heap punching !! o with
       | Some (OPlayer q) =>
           body q <> None /\ dead q = false /\ damageable q = true
           /\ record = distanceToCircle E (playerPosition E punching o) (scale q) pos rad
       | Some (OObstacle c) =>
           body c <> None /\ dead c = false /\ damageable c = true
           /\ record = match collisionType (collision c) with
                       | Circle =>
                           distanceToCircle E (position c) (collisionRad (collision c)) pos rad
                       | Rectangle =>
                           distanceToRect E (collisionMin (collision c))
                                          (collisionMax (collision c)) pos rad
                       end
       | _ => False
       end in
  let isInteractable (o : Ref) : bool :=
    match heap punching !! o with
    | Some (OPlayer q) => interactable q
    | Some (OObstacle c) => interactable c
    | _ => false
    end in
  let farthest : Q := inject_Z ((2 ^ 53 - 1) * 2 ^ 971) in
  isPlayerAt (heap h) p = true ->
  shootStart pl = true ->
  weaponType (getSlot (activeWeapon pl) pl) = Melee ->
  weaponCooldownOver E (updPlayer p (upd_intent (set_shootStart false)) h) p = true ->
  (forall o lo, o ∈ visible -> heap punching !! o = Some (OLoot lo) ->
                body lo = None \/ dead lo = true \/ damageable lo = false) ->
  exists g1 g',
    weaponLogic E p h = Some g1
    /\ playerLogic E p g = Some g'
    /\ g' = animationLogic p g1
    /\ ((g1 = punching
         /\ forall o record, o ∈ visible -> reached o record ->
                             (farthest <= distance record)%Q)
        \/ (exists c record,
              c ∈ visible
              /\ reached c record
              /\ (distance record < farthest)%Q
              /\ (forall o record', o ∈ visible -> reached o record' ->
                                    (distance record <= distance record')%Q)
              /\ g1 = (if isInteractable c
                       then call (CInteract c p) (call (CDamage c 24 p) punching)
                       else call (CDamage c 24 p) punching)))
    /\ (animActive pl = false ->
        anim (getPlayer g' p) = MkAnim true 1 1 1
        /\ forall n g'', laterRuns E p n g' g'' ->
             ((n <= 7)%nat -> animActive (getPlayer g'' p) = true)
             /\ (n = 8%nat ->
                 anim (getPlayer g'' p) = MkAnim false 0 0 (-1)
                 /\ p ∈ fullDirtyObjects g''
                 /\ p ∈ fullDirtyObjects (getPlayer g'' p))).
Proof.
  intros h pl punching weapon rad pos visible reached isInteractable farthest
         Hp Hshoot Hmelee Hcool Hloot.
  destruct (punching_player p h Hp) as (Hdir & Hscale & Hfists & Hvis).
  fold pl punching in Hdir, Hscale, Hfists, Hvis.
  assert (Hpos : meleePosition E punching p = pos).
  { unfold meleePosition. cbv zeta. rewrite Hdir, Hscale, Hfists. reflexivity. }
  assert (Hrad : meleeRadius E punching p = rad).
  { unfold meleeRadius. rewrite Hfists. reflexivity. }
  assert (Hreached : forall o record,
             meleeHit E punching p pos rad o record <-> reached o record)
    by (intros o record; apply meleeHit_spelled).
  assert (Htyped : forall o, o ∈ visibleObjects (getPlayer punching p) ->
             meleeCandidate punching p o = true ->
             is_Some (meleeRecord E punching o (meleePosition E punching p)
                                  (meleeRadius E punching p))).
  { rewrite Hvis, Hpos, Hrad. fold visible. by apply meleeRecord_defined. }
  destruct (meleeLogic_spec p (stampCooldown E p (updPlayer p (upd_intent (set_shootStart false)) h))
              Htyped) as (g1 & Hml & Htarget).
  fold punching in Htarget. rewrite Hpos, Hrad, Hvis in Htarget. fold visible in Htarget.
  change MAX_VALUE with farthest in Htarget.
  assert (Hw : weaponLogic E p h = Some g1).
  { unfold weaponLogic. fold pl. rewrite Hshoot, Hcool, Hmelee. exact Hml. }
  exists g1, (animationLogic p g1).
  split; [exact Hw|]. split; [unfold playerLogic; fold h; by rewrite Hw|].
  split; [reflexivity|].
  pose proof (punching_anim p h Hp) as Hstart. cbv zeta in Hstart. fold pl punching in Hstart.
  clearbody punching.
  assert (Hheap : heap g1 = heap punching).
  { clear -Htarget.
    destruct Htarget as [[-> _]|(c & record & _ & _ & _ & _ & ->)]; [reflexivity|].
    destruct (default false _); by rewrite !heap_call. }
  split.
  { destruct Htarget as [[-> Hfar]|(c & record & Hin & Hhit & Hlt & Hmin & ->)].
    - left. split; [reflexivity|]. intros o record Hin Hr. apply (Hfar o record Hin).
      by apply Hreached.
    - right. exists c, record. split; [exact Hin|].
      split; [by apply Hreached|]. split; [exact Hlt|].
      split; [intros o record' Ho Hr; apply (Hmin o record' Ho); by apply Hreached|].
      replace (isInteractable c) with (default false (objInteractable <$> heap punching !! c));
        [reflexivity|].
      subst isInteractable. cbv beta.
      apply Hreached in Hhit. destruct Hhit as (_ & _ & Hclass).
      destruct (heap punching !! c) as [[q|b|l|b|]|]; try contradiction; reflexivity. }
  intros Hidle. destruct (Hstart Hidle) as [Hpp Hap].
  assert (Hp1 : isPlayerAt (heap g1) p = true) by (by rewrite Hheap).
  assert (Hg1 : getPlayer g1 p = getPlayer punching p)
    by (unfold getPlayer; by rewrite Hheap).
  assert (Ha1 : anim (getPlayer g1 p) = MkAnim true 1 1 0)
    by (rewrite Hg1; exact Hap).
  assert (Hact1 : animActive (getPlayer g1 p) = true)
    by (change (animActive (anim (getPlayer g1 p)) = true); by rewrite Ha1).
  destruct (animationLogic_running p g1 Hp1 Hact1) as (Hp' & Hgo & _).
  rewrite Ha1 in Hgo. cbn [animTime animType animSeq] in Hgo.
  specialize (Hgo ltac:(lia)). change (0 + 1) with 1 in Hgo.
  split; [exact Hgo|].
  intros n g'' Hruns.
  destruct (animation_timeline p (animationLogic p g1) Hp' Hgo n g'' Hruns) as [Hle Heq].
  split; [|exact Heq].
  intros Hn. destruct (Hle Hn) as [_ Ha].
  change (animActive (anim (getPlayer g'' p)) = true). by rewrite Ha.
Qed.

End Properties.

(** * The theorems on the sample data *)

(** C1 on the sample game: a player with no bandage takes the five of
    the stack, a player with five takes none, a player with three takes
    two and leaves three. *)
Lemma interact_stack_pickup_sample :
  (fst (interact sampleEnv 2%positive 1%positive (lootGame false 0)) = Success
   /\ objects (snd (interact sampleEnv 2%positive 1%positive (lootGame false 0))) = [1%positive])
  /\ fst (interact sampleEnv 2%positive 1%positive (lootGame false 5)) = Full
  /\ (fst (interact sampleEnv 2%positive 1%positive (lootGame false 3)) = Success
      /\ count (getLoot (snd (interact sampleEnv 2%positive 1%positive (lootGame false 3)))
                  2%positive) = Int 3).
Proof.
  assert (H : forall held,
             let pl := upd_gear (inventorySet "bandage" (Int held))
                         (samplePlayer 0 false (Some 11%positive) [2%positive]) in
             _) by
    (intros held pl;
     exact (interact_stack_pickup sampleEnv 2%positive 1%positive (lootGame false held)
              (sampleLoot 1 "bandage" 5 12%positive zeroVec) pl [5; 10; 15; 30] 5 held 5
              eq_refl eq_refl eq_refl eq_refl eq_refl eq_refl eq_refl eq_refl eq_refl eq_refl)).
  split; [|split].
  - destruct (H 0) as (H1 & _ & _).
    destruct (H1 ltac:(lia)) as (Hr & _ & Ho & _). split; [exact Hr | exact Ho].
  - destruct (H 5) as (_ & H2 & _). destruct (H2 ltac:(lia) ltac:(lia)) as (Hr & _). exact Hr.
  - destruct (H 3) as (_ & _ & H3).
    destruct (H3 ltac:(lia)) as (Hr & _ & Hc & _). split; [exact Hr | exact Hc].
Defined.

(** C2 on the sample game: the level-2 helmet is equipped, and a loot
    named after the level-1 helmet appears where the picked one was. *)
Lemma pickUpTieredItem_tiers_sample :
  fst (pickUpTieredItem sampleEnv 2%positive "helmet" 1%positive helmetGame) = Success
  /\ helmetLevel (getPlayer (snd (pickUpTieredItem sampleEnv 2%positive "helmet" 1%positive
                                   helmetGame)) 1%positive) = Int 2
  /\ exists oldItem lo,
       heap (snd (pickUpTieredItem sampleEnv 2%positive "helmet" 1%positive helmetGame))
         !! oldItem = Some (OLoot lo)
       /\ typeString lo = "helmet01"
       /\ lootPosition (snd (pickUpTieredItem sampleEnv 2%positive "helmet" 1%positive
                               helmetGame)) oldItem = MkVec2 3 4.
Proof.
  destruct (pickUpTieredItem_tiers sampleEnv 2%positive 1%positive "helmet" helmetGame
              (sampleLoot 1 "helmet02" 1 12%positive (MkVec2 3 4))
              (upd_gear (set_helmetLevel (Int 1))
                 (samplePlayer 0 false (Some 11%positive) [2%positive]))
              2 1 eq_refl eq_refl ltac:(set_solver) eq_refl eq_refl)
    as (_ & _ & H).
  destruct (H ltac:(lia)) as (Hr & Hlevel & _ & Hspawn).
  destruct (Hspawn ltac:(lia))
    as (oldItem & lo & _ & Hlo & Hts & _ & _ & _ & Hpos & _).
  split; [exact Hr|]. split; [exact Hlevel|].
  exists oldItem, lo. split; [exact Hlo|]. split; [exact Hts | exact Hpos].
Defined.

(** C6 on the sample game: the one connection gets the objects it sees
    (1 and 2, not 9) and the deleted object 7, which it does not see. *)
Lemma secondLoop_delta_sample :
  fullDirtyObjects (getPlayer (secondLoop sampleEnv dirtyGame) 1%positive) = [1; 2]%positive
  /\ partialDirtyObjects (getPlayer (secondLoop sampleEnv dirtyGame) 1%positive) = [2%positive]
  /\ deletedObjects (getPlayer (secondLoop sampleEnv dirtyGame) 1%positive) = [7%positive].
Proof.
  destruct (secondLoop_delta sampleEnv dirtyGame 1%positive
              ltac:(vm_compute; apply list_elem_of_here)
              ltac:(vm_compute; apply NoDup_singleton)
              eq_refl)
    as (Hf & Hp & Hd).
  rewrite Hf, Hp, Hd. vm_compute. repeat split.
Defined.

(** C3 on the sample game: after the drain of the two records, the one
    bullet is no longer live. *)
Lemma damage_records_drained_sample :
  bullets (drainDamageRecords sampleEnv (updateLootPositions (worldStep twoContacts bulletGame)))
  = [].
Proof.
  destruct (damage_records_drained sampleEnv twoContacts bulletGame) as (_ & _ & Hb & _).
  etransitivity; [exact Hb|]. vm_compute. reflexivity.
Defined.


(** C8 on the sample brawl: the attacker itself, the dead player, the
    player without a body, the wall that cannot be damaged and the loot
    are all closer to the point of the punch and are passed over; of the
    second player, the crate and the barrel, which are reached, the
    barrel is the closest: it is damaged by 24 and, being interactable,
    interacted with, and nothing else is hit. *)
Lemma melee_attack_sample :
  exists g1 g',
    weaponLogic sampleEnv 1%positive (untilWeaponLogic sampleEnv 1%positive brawlGame) = Some g1
    /\ playerLogic sampleEnv 1%positive brawlGame = Some g'
    /\ calls g' = [CSetVelocity 1%positive 0 0;
                   CDamage 3%positive 24 1%positive;
                   CInteract 3%positive 1%positive]
    /\ anim (getPlayer g' 1%positive) = MkAnim true 1 1 1.
Proof.
  destruct (melee_attack sampleEnv 1%positive brawlGame eq_refl eq_refl eq_refl eq_refl)
    as (g1 & g' & Hw & Hp & Hg & _ & Hanim).
  - intros o lo Hin Hlo. vm_compute in Hin.
    repeat (apply elem_of_cons in Hin as [->|Hin];
            [vm_compute in Hlo; try discriminate Hlo; injection Hlo as <-; right; right; reflexivity|]).
    by apply elem_of_nil in Hin.
  - exists g1, g'. split; [exact Hw|]. split; [exact Hp|].
    split; [|exact (proj1 (Hanim eq_refl))].
    vm_compute in Hp. injection Hp as <-. vm_compute. reflexivity.
Defined.
